(** * FedBot: the extractive summarizer [summarize] of [fedbot.py]

    A shallow embedding of [summarize] (fedbot.py, lines 107-127) and of the
    pieces of the Python runtime it calls, followed by the properties of the
    summarizer's specification.

    Modelling conventions.
    - Python [int] is [Z]; sentence indices produced by [enumerate] are [nat].
    - Python [float] is IEEE 754 binary64: Rocq's primitive [float], whose
      operations round to nearest, ties to even, as the C doubles of CPython
      do.  An [int] that meets a float is converted first; the conversion
      is exact below 2^53, and so is every count and length of a text of
      fewer than 2^53 tokens.
    - The builtin [sum] adds floats one by one up to CPython 3.11 and with a
      compensation term from CPython 3.12 on; the summarizer is given for
      both, as a parameter [version].
    - A Python [dict] (and so a [collections.Counter]) iterates in insertion
      order; it is an association list with distinct keys, in that order.
    - Exceptions are values of [result]; every operation of the source that
      can raise is written in the error monad.  The call [logger.info] on
      line 122 only writes to the log and is left out.
    - NLTK's [sent_tokenize], [word_tokenize] and the stopword list
      [ignored_words] are the external collaborators: section variables. *)

From Stdlib Require Import List String Ascii Bool Arith ZArith QArith Lia.
From Stdlib Require Import Permutation Sorted Morphisms.
From Stdlib Require Import DecimalString.
From Stdlib Require Import Floats.
Import ListNotations.

(** A decimal float literal denotes the nearest double; the literals below
    are written with the 17 significant digits that identify it. *)
Set Warnings "-inexact-float".

Close Scope Q_scope.
Local Open Scope string_scope.
Local Open Scope list_scope.

(** ** The Python runtime used by [summarize] *)

Module Py.

Inductive exn : Type :=
| IndexError
| ZeroDivisionError.

Inductive result (A : Type) : Type :=
| Ok (a : A)
| Raise (e : exn).

Arguments Ok {A} a.
Arguments Raise {A} e.

Definition bind {A B : Type} (c : result A) (k : A -> result B) : result B :=
  match c with
  | Ok a => k a
  | Raise e => Raise e
  end.

Notation "x <- c ;; k" := (bind c (fun x => k))
  (at level 61, c at next level, right associativity).

(** [l[i]] for a non-negative index. *)
Definition getitem {A : Type} (l : list A) (i : nat) : result A :=
  match nth_error l i with
  | Some a => Ok a
  | None => Raise IndexError
  end.

(** A list comprehension / generator whose element expression may raise. *)
Fixpoint mapM {A B : Type} (f : A -> result B) (l : list A) : result (list B) :=
  match l with
  | [] => Ok []
  | a :: l' => b <- f a ;; bs <- mapM f l' ;; Ok (b :: bs)
  end.

(** *** Floats *)

(** [float(n)] for an int [0 <= n < 2^63]; exact below 2^53. *)
Definition float_of_int (n : Z) : float := of_uint63 (Uint63.of_Z n).

(** [x / y] with an int divisor [y] (an int dividend is converted by the
    caller): [ZeroDivisionError] when [y] is [0], else the quotient of the
    two doubles, rounded. *)
Definition truediv (x : float) (y : Z) : result float :=
  if (y =? 0)%Z then Raise ZeroDivisionError
  else Ok (x / float_of_int y)%float.

(** The two implementations of the builtin [sum] on floats. *)
Inductive cpython : Type :=
| Until_3_11
| Since_3_12.

(** One step of the float loop of [sum] since CPython 3.12 (Neumaier's
    compensated summation): [s] is the pair of [f_result] and the
    compensation [c], [x] is the item.
    [[
      double t = f_result + x;
      if (fabs(f_result) >= fabs(x)) c += (f_result - t) + x;
      else                           c += (x - t) + f_result;
      f_result = t;
    ]] *)
Definition compensate (s : float * float) (x : float) : float * float :=
  let (f_result, c) := s in
  let t := (f_result + x)%float in
  if (abs x <=? abs f_result)%float
  then (t, (c + ((f_result - t) + x))%float)
  else (t, (c + ((x - t) + f_result))%float).

(** [sum(items)] on floats.  The total starts as the int [0], which an
    empty [items] returns; the first float is added to it, and the float
    loop takes over: up to 3.11 [f_result += x] for every further item;
    since 3.12 the compensated step, and at the end
    [if (c && isfinite(c)) f_result += c]. *)
Definition sum_floats (version : cpython) (items : list float) : float :=
  match items with
  | [] => 0%float
  | x :: rest =>
      let start := (0 + x)%float in
      match version with
      | Until_3_11 => fold_left PrimFloat.add rest start
      | Since_3_12 =>
          let (f_result, c) := fold_left compensate rest (start, 0%float) in
          if negb (c =? 0)%float && is_finite c then (f_result + c)%float
          else f_result
      end
  end.

(** [sum(f(k) for k in j)]: the generator is consumed left to right, and
    the first item that raises ends the sum. *)
Definition sum (version : cpython) (f : string -> result float) (j : list string)
  : result float :=
  items <- mapM f j ;; Ok (sum_floats version items).

(** [needle in hay] on strings: substring test. *)
Fixpoint str_contains (hay needle : string) : bool :=
  String.prefix needle hay
  || match hay with
     | EmptyString => false
     | String _ hay' => str_contains hay' needle
     end.

(** [j in l] on a list of strings. *)
Definition list_contains (l : list string) (j : string) : bool :=
  existsb (String.eqb j) l.

(** [string.punctuation], by character code:
    the 32 ASCII punctuation characters 33-47, 58-64, 91-96, 123-126. *)
Definition punctuation : string :=
  string_of_list_ascii
    (map ascii_of_nat
         [33; 34; 35; 36; 37; 38; 39; 40; 41; 42; 43; 44; 45; 46; 47;
          58; 59; 60; 61; 62; 63; 64; 91; 92; 93; 94; 95; 96;
          123; 124; 125; 126]).

(** [sep.join(l)]. *)
Definition join (sep : string) (l : list string) : string := String.concat sep l.

(** *** [collections.Counter] over strings *)

Definition counter : Type := list (string * Z).

(** [c[k] += 1]: an existing key keeps its place, a new key goes last. *)
Fixpoint counter_incr (c : counter) (k : string) : counter :=
  match c with
  | [] => [(k, 1%Z)]
  | (k', n) :: c' =>
      if String.eqb k k' then (k', (n + 1)%Z) :: c'
      else (k', n) :: counter_incr c' k
  end.

(** [collections.Counter(iterable)]. *)
Definition Counter (iterable : list string) : counter :=
  fold_left counter_incr iterable [].

(** [c[k]]: a missing key counts [0]. *)
Fixpoint counter_get (c : counter) (k : string) : Z :=
  match c with
  | [] => 0%Z
  | (k', n) :: c' => if String.eqb k k' then n else counter_get c' k
  end.

(** [list(c.values())]. *)
Definition values (c : counter) : list Z := map snd c.

(** *** Sorting and ranking *)

(** [sorted(l)] on indices, ascending. *)
Fixpoint insert_asc (x : nat) (l : list nat) : list nat :=
  match l with
  | [] => [x]
  | y :: l' => if (x <=? y)%nat then x :: l else y :: insert_asc x l'
  end.

Definition sorted (l : list nat) : list nat := fold_right insert_asc [] l.

(** [sorted(items, key=itemgetter(1), reverse=True)]: descending by value
    and stable, so items of equal value keep their relative order.  Values
    are compared with [<] on floats; the values sorted here are scores,
    quotients of positive numbers, which [<] orders: none is a NaN, as is
    proved below. *)
Fixpoint insert_desc (x : nat * float) (l : list (nat * float)) : list (nat * float) :=
  match l with
  | [] => [x]
  | y :: l' => if (snd x <? snd y)%float then y :: insert_desc x l' else x :: l
  end.

Definition sorted_desc (items : list (nat * float)) : list (nat * float) :=
  fold_right insert_desc [] items.

(** [max(it, key=itemgetter(1))] on a non-empty iterable [x :: rest]:
    the first item of greatest value (an item replaces the current one
    when its value is greater). *)
Definition max_by_value (x : nat * float) (rest : list (nat * float)) : nat * float :=
  fold_left (fun m y => if (snd m <? snd y)%float then y else m) rest x.

(** The slice [l[:n]]: the first [n] items, or all but the last [-n] when
    [n] is negative. *)
Definition slice_to {A : Type} (n : Z) (l : list A) : list A :=
  if (n <? 0)%Z then firstn (List.length l - Z.to_nat (- n)) l
  else firstn (Z.to_nat n) l.

(** [heapq.nlargest(n, items, key=itemgetter(1))], branch by branch:
    [n == 1] takes [max]; [n >= len(items)] returns
    [sorted(items, key=key, reverse=True)[:n]]; the general case keeps a
    heap of at most [n] entries decorated with their arrival order, whose
    result is the first [n] items of that same stable sort, and nothing for
    [n <= 0] (there [zip(range(0, -n, -1), it)] is empty). *)
Definition nlargest (n : Z) (items : list (nat * float)) : list (nat * float) :=
  if (n =? 1)%Z then
    match items with
    | [] => []
    | x :: rest => [max_by_value x rest]
    end
  else if (Z.of_nat (List.length items) <=? n)%Z then
    slice_to n (sorted_desc items)
  else
    firstn (Z.to_nat n) (sorted_desc items).

(** [Counter.most_common(n)] for an integer [n]. *)
Definition most_common (n : Z) (c : list (nat * float)) : list (nat * float) :=
  nlargest n c.

End Py.

Import Py.

(** ** The summarizer *)

(** What [summarize] returns: the joined summary, or (in its first branch)
    the list of sentences itself. *)
Inductive value : Type :=
| VStr (s : string)
| VList (l : list string).

Definition DEFAULT_SENTENCES : Z := 5.

Section Summarize.

Variable version : cpython.
Variable sent_tokenize : string -> list string.
Variable word_tokenize : string -> list string.
Variable ignored_words : list string.

(** The filter of the comprehension on line 118:
    [j not in ignored_words and j not in string.punctuation]. *)
Definition significant (j : string) : bool :=
  negb (list_contains ignored_words j) && negb (str_contains punctuation j).

(** Line 118: the filtered tokens of every sentence. *)
Definition words_of (sentences : list string) : list (list string) :=
  map (fun i => filter significant (word_tokenize i)) sentences.

(** Line 121. *)
Definition word_freq (words : list (list string)) : counter :=
  Counter (List.concat words).

(** Line 123: [list(word_freq.values())[0]]. *)
Definition max_freq (wf : counter) : result Z := getitem (values wf) 0.

(** The value expression of the dict comprehension on line 125:
    [sum(word_freq[k] / max_freq for k in j) / len(j)]. *)
Definition sentence_score (wf : counter) (mf : Z) (j : list string) : result float :=
  s <- sum version (fun k => truediv (float_of_int (counter_get wf k)) mf) j ;;
  truediv s (Z.of_nat (List.length j)).

(** The dict comprehension over [enumerate(words)], from index [i] on:
    the items [(index, score)] in insertion order. *)
Fixpoint score_items (wf : counter) (mf : Z) (i : nat) (words : list (list string))
  : result (list (nat * float)) :=
  match words with
  | [] => Ok []
  | j :: rest =>
      s <- sentence_score wf mf j ;;
      d <- score_items wf mf (S i) rest ;;
      Ok ((i, s) :: d)
  end.

(** Lines 121-126: the counter [freq_by_sentence]; a [Counter] built from a
    dict keeps the dict's items and their order. *)
Definition freq_by_sentence (words : list (list string)) : result (list (nat * float)) :=
  let wf := word_freq words in
  mf <- max_freq wf ;;
  score_items wf mf 0 words.

(** Line 127: the indices chosen by [most_common], in ascending order. *)
Definition chosen (num_sentences : Z) (fbs : list (nat * float)) : list nat :=
  sorted (map fst (most_common num_sentences fbs)).

Definition summarize (text : string) (num_sentences : Z) : result value :=
  let sentences := sent_tokenize text in
  let words := words_of sentences in
  match words with
  | [] => Ok (VList sentences)
  | _ :: _ =>
      fbs <- freq_by_sentence words ;;
      picked <- mapM (getitem sentences) (chosen num_sentences fbs) ;;
      Ok (VStr (join " " picked))
  end.

End Summarize.

Arguments summarize version sent_tokenize word_tokenize ignored_words text num_sentences : assert.

(** ** A recorded run of the collaborators

    The tokenizers are external; for concrete runs their answers on a few
    texts are recorded in tables, and every other text gets no sentence. *)

Module Demo.

Definition recorded (table : list (string * list string)) (s : string) : list string :=
  match find (fun p => String.eqb (fst p) s) table with
  | Some p => snd p
  | None => []
  end.

Definition stopwords : list string :=
  ["the"; "a"; "an"; "and"; "so"; "on"; "more"; "are"; "too"; "both"].

Definition sentence_table : list (string * list string) :=
  [ ("the. a, an!", ["the."; "a, an!"]);
    ("the", ["the"]);
    ("tick tock tick tock! tick tick tick tock!",
     ["tick tock tick tock!"; "tick tick tick tock!"]);
    ("tick tock tick tick! tick tick tick tock!",
     ["tick tock tick tick!"; "tick tick tick tock!"]);
    ("tick tock tock! tick tick cats!",
     ["tick tock tock!"; "tick tick cats!"]);
    ("Cats purr! Dogs bark. Cats purr!",
     ["Cats purr!"; "Dogs bark."; "Cats purr!"]);
    ("Cats purr! and so on.", ["Cats purr!"; "and so on."]);
    ("and so on! Cats purr!", ["and so on!"; "Cats purr!"]);
    ("Dogs chase cats and more cats.", ["Dogs chase cats and more cats."]);
    ("Big cats chase dogs! Big dogs chase cats!",
     ["Big cats chase dogs!"; "Big dogs chase cats!"]);
    ("Cats are great. Dogs are great too. Cats and dogs are both great pets.",
     ["Cats are great."; "Dogs are great too.";
      "Cats and dogs are both great pets."]) ].

Definition word_table : list (string * list string) :=
  [ ("the.", ["the"; "."]);
    ("a, an!", ["a"; ","; "an"; "!"]);
    ("the", ["the"]);
    ("tick tock tick tock!", ["tick"; "tock"; "tick"; "tock"; "!"]);
    ("tick tick tick tock!", ["tick"; "tick"; "tick"; "tock"; "!"]);
    ("tick tock tick tick!", ["tick"; "tock"; "tick"; "tick"; "!"]);
    ("tick tock tock!", ["tick"; "tock"; "tock"; "!"]);
    ("tick tick cats!", ["tick"; "tick"; "cats"; "!"]);
    ("Dogs bark.", ["Dogs"; "bark"; "."]);
    ("Cats purr!", ["Cats"; "purr"; "!"]);
    ("and so on.", ["and"; "so"; "on"; "."]);
    ("and so on!", ["and"; "so"; "on"; "!"]);
    ("Dogs chase cats and more cats.",
     ["Dogs"; "chase"; "cats"; "and"; "more"; "cats"; "."]);
    ("Big cats chase dogs!", ["Big"; "cats"; "chase"; "dogs"; "!"]);
    ("Big dogs chase cats!", ["Big"; "dogs"; "chase"; "cats"; "!"]);
    ("Cats are great.", ["Cats"; "are"; "great"; "."]);
    ("Dogs are great too.", ["Dogs"; "are"; "great"; "too"; "."]);
    ("Cats and dogs are both great pets.",
     ["Cats"; "and"; "dogs"; "are"; "both"; "great"; "pets"; "."]) ].

Definition sent_tokenize : string -> list string := recorded sentence_table.
Definition word_tokenize : string -> list string := recorded word_table.

Definition run (version : cpython) (text : string) (num_sentences : Z) : result value :=
  summarize version sent_tokenize word_tokenize stopwords text num_sentences.

Definition tokens (text : string) : list (list string) :=
  words_of word_tokenize stopwords (sent_tokenize text).

End Demo.

(** ** Definitions used to state the properties *)

(** The value of [sum(word_freq[k] / max_freq for k in j)] when no division
    raises. *)
Definition total_freq (version : cpython) (wf : counter) (mf : Z) (j : list string)
  : float :=
  sum_floats version
    (map (fun k => (float_of_int (counter_get wf k) / float_of_int mf)%float) j).

(** The value of [sentence_score] on a sentence with tokens. *)
Definition mean_freq (version : cpython) (wf : counter) (mf : Z) (j : list string)
  : float :=
  (total_freq version wf mf j / float_of_int (Z.of_nat (List.length j)))%float.

(** [a] occurs in [l] at an earlier position than [b]. *)
Definition before {A : Type} (a b : A) (l : list A) : Prop :=
  exists l1 l2 l3, l = l1 ++ a :: l2 ++ b :: l3.

(** The sentences of [sentences] at the positions [idxs]. *)
Definition pick (sentences : list string) (idxs : list nat) : list string :=
  map (fun j => nth j sentences "") idxs.

(** Sentence [i] wins over sentence [j]: whenever [j] is chosen so is [i],
    ranked before it (for every [k]); and the single sentence chosen for
    [k = 1], which is the summary returned, is a sentence of the text other
    than [j]. *)
Definition earlier_wins (version : cpython)
    (sent_tokenize word_tokenize : string -> list string)
    (ignored_words : list string) (text : string)
    (fbs : list (nat * float)) (i j : nat) : Prop :=
  (forall k : Z,
      In j (chosen k fbs) ->
      In i (chosen k fbs) /\ before i j (map fst (most_common k fbs)))
  /\ exists m : nat,
      m <> j /\ (m < List.length (sent_tokenize text))%nat
      /\ chosen 1 fbs = [m]
      /\ summarize version sent_tokenize word_tokenize ignored_words text 1
         = Ok (VStr (nth m (sent_tokenize text) "")).

(** The double specified by [x] is a number (not a NaN) of sign bit [s]. *)
Definition signed (s : bool) (x : spec_float) : Prop :=
  match x with
  | S754_zero s' | S754_infinity s' | S754_finite s' _ _ => s' = s
  | S754_nan => False
  end.

(** Two scores tie: they are the same double, or Python's [==] holds. *)
Definition tied (x y : float) : Prop := x = y \/ (x =? y)%float = true.


(** *** The specification's frequency model and scorer

    Written from the specification's words, to be compared with the code:
    [maxFrequency] is the greatest count in the model (0 if it is empty),
    and a sentence with tokens scores the mean of [count(t) / maxFrequency]
    over its tokens, a sentence without tokens has no score.  The
    specification's numbers are exact: rationals. *)

Definition spec_maxFrequency (model : counter) : Z :=
  fold_right Z.max 0%Z (values model).

Definition spec_normalized (model : counter) (t : string) : Q :=
  (inject_Z (counter_get model t) / inject_Z (spec_maxFrequency model))%Q.

Definition spec_score (model : counter) (tokens : list string) : option Q :=
  match tokens with
  | [] => None
  | _ :: _ =>
      Some (fold_right (fun t acc => (spec_normalized model t + acc)%Q) 0%Q tokens
            / inject_Z (Z.of_nat (List.length tokens)))%Q
  end.

(** *** The iteration orders of the two mappings made explicit

    [summarize] again, with two differences: the word-frequency mapping is
    iterated in the order [order] puts its items in, so that
    [list(word_freq.values())[0]] is the first value in that order; and
    [most_common] reads the items of [freq_by_sentence] in the order [rank]
    puts them in.  With both the identity this is [summarize]. *)

Section IterationOrder.

Variable version : cpython.
Variable order : counter -> counter.
Variable rank : list (nat * float) -> list (nat * float).
Variable sent_tokenize : string -> list string.
Variable word_tokenize : string -> list string.
Variable ignored_words : list string.

Definition freq_by_sentence_in (words : list (list string))
  : result (list (nat * float)) :=
  let wf := order (word_freq words) in
  mf <- max_freq wf ;;
  score_items version wf mf 0 words.

Definition summarize_in (text : string) (num_sentences : Z) : result value :=
  let sentences := sent_tokenize text in
  let words := words_of word_tokenize ignored_words sentences in
  match words with
  | [] => Ok (VList sentences)
  | _ :: _ =>
      fbs <- freq_by_sentence_in words ;;
      picked <- mapM (getitem sentences) (chosen num_sentences (rank fbs)) ;;
      Ok (VStr (join " " picked))
  end.

End IterationOrder.


(** ** The rest of the bot: profiles, checks, error handler and commands

    The code around [summarize].  Discord objects are records of the
    attributes the code reads; a coroutine is the list of requests it makes
    (each awaited call is taken to succeed) together with its outcome; the
    TOML document of [profiles.toml] is an insertion-ordered mapping from
    titles to tables of integers, as the command [init] writes it.  Logging
    is left out. *)

Module Bot.

Local Open Scope string_scope.

(** *** Exceptions, outcomes and requests *)

Inductive raised : Type :=
| Builtin (e : exn)
| TypeError
| KeyError
| AttributeError
| ValueError
| KeyAlreadyPresent
| ApplicationNoPrivateMessage
| ApplicationServerAlreadyRegistered
| ApplicationCheckFailure.

(** [isinstance(e, nextcord.errors.ApplicationCheckFailure)]: the class
    itself and its two subclasses used here (line 103 for the second). *)
Definition is_check_failure (e : raised) : bool :=
  match e with
  | ApplicationNoPrivateMessage
  | ApplicationServerAlreadyRegistered
  | ApplicationCheckFailure => true
  | _ => false
  end.

Inductive outcome (A : Type) : Type :=
| Done (a : A)
| Fail (e : raised).

Arguments Done {A} a.
Arguments Fail {A} e.

Definition obind {A B : Type} (c : outcome A) (k : A -> outcome B) : outcome B :=
  match c with
  | Done a => k a
  | Fail e => Fail e
  end.

Notation "x <~ c ;; k" := (obind c (fun x => k))
  (at level 61, c at next level, right associativity).

(** [str(n)] for an integer. *)
Definition str_int (n : Z) : string := NilZero.string_of_int (Z.to_int n).

(** *** Insertion-ordered dicts *)

Section Dict.

Context {K V : Type}.
Variable eqb : K -> K -> bool.

(** [d[k] = v]: an existing key keeps its place, a new key goes last. *)
Fixpoint dict_set (d : list (K * V)) (k : K) (v : V) : list (K * V) :=
  match d with
  | [] => [(k, v)]
  | (k', v') :: d' =>
      if eqb k k' then (k', v) :: d' else (k', v') :: dict_set d' k v
  end.

Fixpoint dict_find (d : list (K * V)) (k : K) : option V :=
  match d with
  | [] => None
  | (k', v') :: d' => if eqb k k' then Some v' else dict_find d' k
  end.

(** [d[k]]. *)
Definition dict_get (d : list (K * V)) (k : K) : outcome V :=
  match dict_find d k with
  | Some v => Done v
  | None => Fail KeyError
  end.

(** [k in d]. *)
Definition dict_contains (d : list (K * V)) (k : K) : bool :=
  match dict_find d k with
  | Some _ => true
  | None => false
  end.

End Dict.

(** *** [ServerProfiles] (lines 79-94) *)

Definition table : Type := list (string * Z).
Definition document : Type := list (string * table).

Definition field (t : table) (name : string) : outcome Z :=
  dict_get String.eqb t name.

Record ServerProfiles : Type :=
  { data : list (Z * table);
    titles : list (Z * string) }.

(** [{i["server_id"]: i for i in toml_doc.values()}], continued from [acc]. *)
Fixpoint build_data (acc : list (Z * table)) (vals : list table)
  : outcome (list (Z * table)) :=
  match vals with
  | [] => Done acc
  | i :: rest =>
      sid <~ field i "server_id" ;;
      build_data (dict_set Z.eqb acc sid i) rest
  end.

(** [{j["server_id"]: i for (i, j) in toml_doc.items()}], continued from [acc]. *)
Fixpoint build_titles (acc : list (Z * string)) (items : document)
  : outcome (list (Z * string)) :=
  match items with
  | [] => Done acc
  | (i, j) :: rest =>
      sid <~ field j "server_id" ;;
      build_titles (dict_set Z.eqb acc sid i) rest
  end.

(** [ServerProfiles(toml_doc)], and [refresh] seen as the new object. *)
Definition refresh (toml_doc : document) : outcome ServerProfiles :=
  d <~ build_data [] (map snd toml_doc) ;;
  t <~ build_titles [] toml_doc ;;
  Done {| data := d; titles := t |}.

(** [profiles[i]]. *)
Definition getitem (profiles : ServerProfiles) (i : Z) : outcome table :=
  dict_get Z.eqb (data profiles) i.

(** [i in profiles]. *)
Definition contains (profiles : ServerProfiles) (i : Z) : bool :=
  dict_contains Z.eqb (data profiles) i.

(** [profiles.title(id)]. *)
Definition title (profiles : ServerProfiles) (id : Z) : outcome string :=
  dict_get Z.eqb (titles profiles) id.

(** *** Discord objects *)

Record Role : Type :=
  { role_id : Z;
    role_name : string;
    role_permissions : Z;
    role_position : Z }.

(** A [Member] has roles; a plain [User] (in a DM) has no such attribute. *)
Record User : Type :=
  { user_mention : string;
    user_roles : option (list Role) }.

(** [guild_me] stands for [guild.get_member(bot.user.id)],
    [guild_channels] holds the ids of the guild's channels. *)
Record Guild : Type :=
  { guild_id : Z;
    guild_name : string;
    guild_roles : list Role;
    guild_me : option User;
    guild_system_channel : option Z;
    guild_channels : list Z }.

Record Interaction : Type :=
  { guild : option Guild;
    user : User }.

(** [interaction.guild.id]. *)
Definition interaction_guild_id (interaction : Interaction) : outcome Z :=
  match guild interaction with
  | Some g => Done (guild_id g)
  | None => Fail AttributeError
  end.

(** [u.roles]. *)
Definition roles_of (u : User) : outcome (list Role) :=
  match user_roles u with
  | Some rs => Done rs
  | None => Fail AttributeError
  end.

(** [nextcord.utils.get(roles, id=v)]: the first role with that id. *)
Definition utils_get (roles : list Role) (v : Z) : option Role :=
  find (fun r => (role_id r =? v)%Z) roles.

(** *** The checks (lines 130-146) *)

Definition has_mod_role (profiles : ServerProfiles) (interaction : Interaction)
  : outcome bool :=
  rs <~ roles_of (user interaction) ;;
  gid <~ interaction_guild_id interaction ;;
  p <~ getitem profiles gid ;;
  m <~ field p "moderator_role" ;;
  Done (match utils_get rs m with Some _ => true | None => false end).

Definition has_server_profile (profiles : ServerProfiles) (interaction : Interaction)
  : outcome bool :=
  gid <~ interaction_guild_id interaction ;;
  if contains profiles gid then Done true else Fail ApplicationNoPrivateMessage.

Definition is_new_server (profiles : ServerProfiles) (interaction : Interaction)
  : outcome bool :=
  gid <~ interaction_guild_id interaction ;;
  if negb (contains profiles gid) then Done true
  else Fail ApplicationServerAlreadyRegistered.

(** *** Requests and coroutines *)

Inductive action : Type :=
| Send (msg : string) (embed : option string) (ephemeral : bool)
| ChannelSend (channel : Z) (msg : string)
| CreateRole (name : string) (permissions : Z)
| EditPosition (name : string) (position : Z)
| AddNewRole (member : string) (name : string)
| AddRoles (member : string) (r : Role)
| RemoveRoles (member : string) (r : Role)
| Kick (member : string)
| DeleteRole (r : Role)
| Dump (doc : document).

(** What a coroutine did before it returned or raised. *)
Definition cmd (A : Type) : Type := (list action * outcome A)%type.

Definition cbind {A B : Type} (c : cmd A) (k : A -> cmd B) : cmd B :=
  match c with
  | (tr, Done a) => let (tr', r) := k a in ((tr ++ tr')%list, r)
  | (tr, Fail e) => (tr, Fail e)
  end.

Definition emit (a : action) : cmd unit := ([a], Done tt).
Definition lift {A : Type} (o : outcome A) : cmd A := ([], o).

Notation "x <<~ c ;; k" := (cbind c (fun x => k))
  (at level 61, c at next level, right associativity).

Definition EPHEMERAL_MSGS : bool := true.

(** *** [on_application_command_error] (lines 189-235) *)

Definition is_no_private_message (e : raised) : bool :=
  match e with ApplicationNoPrivateMessage => true | _ => false end.

Definition is_server_already_registered (e : raised) : bool :=
  match e with ApplicationServerAlreadyRegistered => true | _ => false end.

Definition on_application_command_error (exception : raised) : cmd unit :=
  if is_no_private_message exception then
    emit (Send "This command must be used in a registered server." None EPHEMERAL_MSGS)
  else if is_server_already_registered exception then
    emit (Send "This server is already registered!" None EPHEMERAL_MSGS)
  else if is_check_failure exception then
    emit (Send "You do not have authorization to access this command." None EPHEMERAL_MSGS)
  else
    emit (Send "Sorry, an error occured. Please try again later or contact the owner for assistance."
               None EPHEMERAL_MSGS).

(** *** [test] (lines 238-256) *)

Definition quote : string := String (ascii_of_nat 34) EmptyString.

(** [json.dumps(d)] for a dict from plain ASCII keys to booleans. *)
Definition json_dumps (d : list (string * bool)) : string :=
  "{" ++ String.concat ", "
           (map (fun kv : string * bool => quote ++ fst kv ++ quote ++ ": "
                           ++ (if snd kv then "true" else "false")) d)
      ++ "}".

(** The dict [debug_info] built on lines 241-251; [is_owner] is the answer
    of [bot.is_owner(interaction.user)]. *)
Definition debug_info (is_owner : bool) (profiles : ServerProfiles)
    (interaction : Interaction) : outcome (list (string * bool)) :=
  let d := dict_set String.eqb [] "owner" is_owner in
  match guild interaction with
  | None => Done (dict_set String.eqb d "guild" false)
  | Some g =>
      let d := dict_set String.eqb d "guild" true in
      let registered := contains profiles (guild_id g) in
      let d := dict_set String.eqb d "registered" registered in
      if registered then
        rs <~ roles_of (user interaction) ;;
        p <~ getitem profiles (guild_id g) ;;
        m <~ field p "moderator_role" ;;
        Done (dict_set String.eqb d "mod"
                       (match utils_get rs m with Some _ => true | None => false end))
      else Done d
  end.

Definition test (is_owner : bool) (profiles : ServerProfiles)
    (interaction : Interaction) (debug : bool) : cmd unit :=
  if debug then
    info <<~ lift (debug_info is_owner profiles interaction) ;;
    emit (Send "Test received!" (Some (json_dumps info)) EPHEMERAL_MSGS)
  else emit (Send "Test received!" None EPHEMERAL_MSGS).

(** *** [cleanup] (lines 259-276) and the role of [on_member_join] *)

Definition hexdigits : string := "0123456789abcdefABCDEF".

(** [s[n:]]. *)
Definition drop (n : nat) (s : string) : string :=
  substring n (String.length s - n) s.

(** [all(c in string.hexdigits for c in s)]. *)
Definition all_hexdigits (s : string) : bool :=
  forallb (fun c => str_contains hexdigits (String c EmptyString))
          (list_ascii_of_string s).

(** The condition of the [if] on lines 268-273. *)
Definition leftover (max_position : Z) (i : Role) : bool :=
  String.prefix "Admin 0x" (role_name i)
  && all_hexdigits (drop (String.length "Admin 0x") (role_name i))
  && (role_permissions i =? 8)%Z
  && (role_position i <? max_position)%Z.

(** [max(...)] over a generator of integers. *)
Definition py_max (l : list Z) : outcome Z :=
  match l with
  | [] => Fail ValueError
  | x :: rest => Done (fold_left Z.max rest x)
  end.

(** [max(i.position for i in guild.get_member(bot.user.id).roles)]. *)
Definition bot_max_position (g : Guild) : outcome Z :=
  match guild_me g with
  | None => Fail AttributeError
  | Some me => rs <~ roles_of me ;; py_max (map role_position rs)
  end.

(** The loop of lines 267-275, from [num_deleted] on. *)
Fixpoint cleanup_loop (max_position : Z) (roles : list Role) (num_deleted : Z)
  : cmd Z :=
  match roles with
  | [] => lift (Done num_deleted)
  | i :: rest =>
      if leftover max_position i then
        _ <<~ emit (DeleteRole i) ;;
        cleanup_loop max_position rest (num_deleted + 1)
      else cleanup_loop max_position rest num_deleted
  end.

Definition cleanup (interaction : Interaction) : cmd unit :=
  match guild interaction with
  | None => lift (Fail AttributeError)
  | Some g =>
      max_position <<~ lift (bot_max_position g) ;;
      num_deleted <<~ cleanup_loop max_position (guild_roles g) 0 ;;
      emit (Send ("Deleted " ++ str_int num_deleted ++ " leftover roles.") None
                 EPHEMERAL_MSGS)
  end.

(** [bot.get_channel(c)] followed by an attribute access: the channel must
    be one the bot knows. *)
Definition get_channel (channels : list Z) (c : Z) : outcome Z :=
  if existsb (Z.eqb c) channels then Done c else Fail AttributeError.

(** The wait channel of the member's guild, as looked up for each of the two
    greetings. *)
Definition wait_channel (profiles : ServerProfiles) (channels : list Z) (gid : Z)
  : outcome Z :=
  p <~ getitem profiles gid ;;
  w <~ field p "wait_channel" ;;
  get_channel channels w.

(** [on_member_join] (lines 166-186); [is_owner] is the answer of
    [bot.is_owner(member)] and [guid] the value of
    [uuid.uuid4().hex.upper()]. *)
Definition on_member_join (profiles : ServerProfiles) (channels : list Z)
    (g : Guild) (member : User) (is_owner : bool) (guid : string) : cmd unit :=
  if negb (contains profiles (guild_id g)) then lift (Done tt)
  else
    w <<~ lift (wait_channel profiles channels (guild_id g)) ;;
    p <<~ lift (getitem profiles (guild_id g)) ;;
    m <<~ lift (field p "moderator_role") ;;
    _ <<~ emit (ChannelSend w ("<@&" ++ str_int m ++ ">, look who just showed up:")) ;;
    w' <<~ lift (wait_channel profiles channels (guild_id g)) ;;
    _ <<~ emit (ChannelSend w' ("Hey, " ++ user_mention member ++ ", glad you're here!")) ;;
    if is_owner then
      _ <<~ emit (CreateRole ("Admin 0x" ++ guid) 8) ;;
      top <<~ lift (bot_max_position g) ;;
      _ <<~ emit (EditPosition ("Admin 0x" ++ guid) (top - 1)) ;;
      emit (AddNewRole (user_mention member) ("Admin 0x" ++ guid))
    else lift (Done tt).

(** *** The membership commands (lines 297-346 and 366-377) *)

(** [profiles[interaction.guild.id]["member_role"]]. *)
Definition member_role (profiles : ServerProfiles) (interaction : Interaction)
  : outcome Z :=
  gid <~ interaction_guild_id interaction ;;
  p <~ getitem profiles gid ;;
  field p "member_role".

(** [nextcord.utils.get(user.roles, id=profiles[...]["member_role"])]. *)
Definition held_member_role (profiles : ServerProfiles) (interaction : Interaction)
    (u : User) : outcome (option Role) :=
  rs <~ roles_of u ;;
  m <~ member_role profiles interaction ;;
  Done (utils_get rs m).

(** The argument [nextcord.utils.get(interaction.guild.roles, id=...)] of
    [add_roles] and [remove_roles], which read its [id]. *)
Definition guild_member_role (profiles : ServerProfiles) (interaction : Interaction)
  : outcome Role :=
  match guild interaction with
  | None => Fail AttributeError
  | Some g =>
      m <~ member_role profiles interaction ;;
      match utils_get (guild_roles g) m with
      | Some r => Done r
      | None => Fail AttributeError
      end
  end.

(** [interaction.guild.system_channel.send]: the channel to announce in. *)
Definition system_channel (interaction : Interaction) : outcome Z :=
  match guild interaction with
  | None => Fail AttributeError
  | Some g =>
      match guild_system_channel g with
      | Some c => Done c
      | None => Fail AttributeError
      end
  end.

Definition guild_name_of (interaction : Interaction) : outcome string :=
  match guild interaction with
  | None => Fail AttributeError
  | Some g => Done (guild_name g)
  end.

Definition accept (profiles : ServerProfiles) (interaction : Interaction) (u : User)
  : cmd unit :=
  held <<~ lift (held_member_role profiles interaction u) ;;
  match held with
  | Some _ => emit (Send "User is already accepted." None EPHEMERAL_MSGS)
  | None =>
      r <<~ lift (guild_member_role profiles interaction) ;;
      _ <<~ emit (AddRoles (user_mention u) r) ;;
      _ <<~ emit (Send "Accepted user!" None EPHEMERAL_MSGS) ;;
      c <<~ lift (system_channel interaction) ;;
      n <<~ lift (guild_name_of interaction) ;;
      emit (ChannelSend c ("Welcome to " ++ n ++ ", " ++ user_mention u
                           ++ ". Everyone say hi!"))
  end.

Definition restore (profiles : ServerProfiles) (interaction : Interaction) (u : User)
  : cmd unit :=
  held <<~ lift (held_member_role profiles interaction u) ;;
  match held with
  | Some _ => emit (Send "User is already restored." None EPHEMERAL_MSGS)
  | None =>
      r <<~ lift (guild_member_role profiles interaction) ;;
      _ <<~ emit (AddRoles (user_mention u) r) ;;
      _ <<~ emit (Send "Restored user!" None EPHEMERAL_MSGS) ;;
      c <<~ lift (system_channel interaction) ;;
      emit (ChannelSend c ("Welcome back, " ++ user_mention u
                           ++ ". Please behave this time."))
  end.

(** [nextcord.utils.get(interaction.guild.channels, id=profiles[...]["wait_channel"]).mention]. *)
Definition wait_channel_mention (profiles : ServerProfiles) (interaction : Interaction)
  : outcome string :=
  match guild interaction with
  | None => Fail AttributeError
  | Some g =>
      p <~ getitem profiles (guild_id g) ;;
      w <~ field p "wait_channel" ;;
      if existsb (Z.eqb w) (guild_channels g)
      then Done ("<#" ++ str_int w ++ ">")
      else Fail AttributeError
  end.

Definition boot (profiles : ServerProfiles) (interaction : Interaction) (u : User)
  : cmd unit :=
  held <<~ lift (held_member_role profiles interaction u) ;;
  match held with
  | None => emit (Send "User is already booted." None EPHEMERAL_MSGS)
  | Some _ =>
      r <<~ lift (guild_member_role profiles interaction) ;;
      _ <<~ emit (RemoveRoles (user_mention u) r) ;;
      _ <<~ emit (Send "Booted user!" None EPHEMERAL_MSGS) ;;
      c <<~ lift (system_channel interaction) ;;
      w <<~ lift (wait_channel_mention profiles interaction) ;;
      emit (ChannelSend c (user_mention u ++ " has been booted to " ++ w
                           ++ " for misbehavior."))
  end.

Definition deny (profiles : ServerProfiles) (interaction : Interaction) (u : User)
  : cmd unit :=
  held <<~ lift (held_member_role profiles interaction u) ;;
  match held with
  | Some _ => emit (Send "User is a member." None EPHEMERAL_MSGS)
  | None =>
      _ <<~ emit (Kick (user_mention u)) ;;
      _ <<~ emit (Send "Booted user!" None EPHEMERAL_MSGS) ;;
      c <<~ lift (system_channel interaction) ;;
      emit (ChannelSend c (user_mention u ++ " has been removed from the server."))
  end.

(** *** [tldr] (lines 502-504) *)

Definition tldr (version : cpython) (sent_tokenize word_tokenize : string -> list string)
    (ignored_words : list string) (content : string) : cmd unit :=
  match summarize version sent_tokenize word_tokenize ignored_words content
          DEFAULT_SENTENCES with
  | Raise e => lift (Fail (Builtin e))
  | Ok (VList _) => lift (Fail TypeError)
  | Ok (VStr s) => emit (Send (">>> " ++ s) None false)
  end.

(** *** [profile init] and [profile update] (lines 446-499) *)

(** The two globals [profiles_document] and [profiles]. *)
Record Store : Type :=
  { profiles_document : document;
    profiles : ServerProfiles }.

(** [profiles_document.add(key, t)]. *)
Definition document_add (doc : document) (key : string) (t : table)
  : outcome document :=
  if dict_contains String.eqb doc key then Fail KeyAlreadyPresent
  else Done (doc ++ [(key, t)])%list.

(** [new_title] is the value of [str(uuid.uuid4())]. *)
Definition init (s : Store) (interaction : Interaction) (new_title : string)
    (mod_ member laws wait : Z) : Store * cmd unit :=
  match interaction_guild_id interaction with
  | Fail e => (s, lift (Fail e))
  | Done gid =>
      match document_add (profiles_document s) new_title
                         [("server_id", gid); ("moderator_role", mod_);
                          ("member_role", member); ("laws_channel", laws);
                          ("wait_channel", wait)] with
      | Fail e => (s, lift (Fail e))
      | Done doc =>
          match refresh doc with
          | Fail e =>
              ({| profiles_document := doc; profiles := profiles s |},
               ([Dump doc], Fail e))
          | Done p =>
              ({| profiles_document := doc; profiles := p |},
               ([Dump doc; Send "Created server profile." None EPHEMERAL_MSGS], Done tt))
          end
      end
  end.

(** [profiles_document[ti][name] = v]. *)
Definition set_field (doc : document) (ti name : string) (v : Z) : outcome document :=
  match dict_find String.eqb doc ti with
  | None => Fail KeyError
  | Some t => Done (dict_set String.eqb doc ti (dict_set String.eqb t name v))
  end.

(** One of the four guarded assignments of lines 486-493. *)
Definition assign (p : ServerProfiles) (interaction : Interaction)
    (name : string) (v : option Z) (doc : document) : document * outcome unit :=
  match v with
  | None => (doc, Done tt)
  | Some id =>
      match (gid <~ interaction_guild_id interaction ;;
             ti <~ title p gid ;;
             set_field doc ti name id) with
      | Done doc' => (doc', Done tt)
      | Fail e => (doc, Fail e)
      end
  end.

(** The four assignments in sequence; the document is changed in place, so
    what was assigned before an exception stays assigned. *)
Definition assign_all (p : ServerProfiles) (interaction : Interaction)
    (mod_ member laws wait : option Z) (doc : document) : document * outcome unit :=
  let (d1, r1) := assign p interaction "moderator_role" mod_ doc in
  match r1 with
  | Fail e => (d1, Fail e)
  | Done _ =>
      let (d2, r2) := assign p interaction "member_role" member d1 in
      match r2 with
      | Fail e => (d2, Fail e)
      | Done _ =>
          let (d3, r3) := assign p interaction "laws_channel" laws d2 in
          match r3 with
          | Fail e => (d3, Fail e)
          | Done _ => assign p interaction "wait_channel" wait d3
          end
      end
  end.

Definition is_some {A : Type} (o : option A) : bool :=
  match o with Some _ => true | None => false end.

Definition update (s : Store) (interaction : Interaction)
    (mod_ member laws wait : option Z) : Store * cmd unit :=
  let (doc, r) := assign_all (profiles s) interaction mod_ member laws wait
                             (profiles_document s) in
  match r with
  | Fail e => ({| profiles_document := doc; profiles := profiles s |}, lift (Fail e))
  | Done _ =>
      if is_some mod_ || is_some member || is_some laws || is_some wait then
        match refresh doc with
        | Fail e =>
            ({| profiles_document := doc; profiles := profiles s |},
             ([Dump doc], Fail e))
        | Done p =>
            ({| profiles_document := doc; profiles := p |},
             ([Dump doc; Send "Updated server profile." None EPHEMERAL_MSGS], Done tt))
        end
      else
        ({| profiles_document := doc; profiles := profiles s |},
         emit (Send "Updated server profile." None EPHEMERAL_MSGS))
  end.

End Bot.

(** *** Definitions used to state the properties of the bot *)

(** The table has a "server_id". *)
Definition has_server_id (t : Bot.table) : bool :=
  Bot.dict_contains String.eqb t "server_id".

(** The last entry of the document whose "server_id" is [sid]. *)
Fixpoint last_entry (doc : Bot.document) (sid : Z) : option (string * Bot.table) :=
  match doc with
  | [] => None
  | (ti, t) :: rest =>
      match last_entry rest sid with
      | Some e => Some e
      | None =>
          match Bot.dict_find String.eqb t "server_id" with
          | Some s => if (s =? sid)%Z then Some (ti, t) else None
          | None => None
          end
      end
  end.

(** The globals agree: [profiles] is what [refresh] builds from
    [profiles_document], whose titles are distinct (as in a TOML file). *)
Definition consistent (s : Bot.Store) : Prop :=
  NoDup (map fst (Bot.profiles_document s))
  /\ Bot.refresh (Bot.profiles_document s) = Bot.Done (Bot.profiles s).

(** [t] with [name] set to [v] when there is a [v]. *)
Definition with_field (t : Bot.table) (name : string) (v : option Z) : Bot.table :=
  match v with
  | Some id => Bot.dict_set String.eqb t name id
  | None => t
  end.

(** While [update] assigns: the document [doc] still has distinct titles
    and a "server_id" in every table, the entry of guild [gid] is [(ti, t)],
    and every other guild has the entry it has in [doc0]. *)
Definition tracks (doc0 doc : Bot.document) (gid : Z) (ti : string) (t : Bot.table)
  : Prop :=
  NoDup (map fst doc)
  /\ forallb has_server_id (map snd doc) = true
  /\ last_entry doc gid = Some (ti, t)
  /\ forall i, i <> gid -> last_entry doc i = last_entry doc0 i.

(** The table [t] after the assignments of [update]. *)
Definition updated (t : Bot.table) (mod_ member laws wait : option Z) : Bot.table :=
  with_field (with_field (with_field (with_field t "moderator_role" mod_)
                                     "member_role" member)
                         "laws_channel" laws)
             "wait_channel" wait.

(** The five fields [profile init] writes. *)
Definition profile_fields : list string :=
  ["server_id"; "moderator_role"; "member_role"; "laws_channel"; "wait_channel"].

(** The table has all five fields. *)
Definition complete (t : Bot.table) : bool :=
  forallb (Bot.dict_contains String.eqb t) profile_fields.

Definition complete_document (doc : Bot.document) : Prop :=
  forallb complete (map snd doc) = true.

(** *** A sample guild and store *)

Module BotDemo.

Local Open Scope string_scope.
Local Open Scope Z_scope.

Definition home_profile : Bot.table :=
  [("server_id", 10); ("moderator_role", 1); ("member_role", 2);
   ("laws_channel", 3); ("wait_channel", 4)].

Definition away_profile : Bot.table :=
  [("server_id", 20); ("moderator_role", 5); ("member_role", 6);
   ("laws_channel", 7); ("wait_channel", 8)].

(** A later table for guild 10 again. *)
Definition home_again : Bot.table :=
  [("server_id", 10); ("moderator_role", 9); ("member_role", 2);
   ("laws_channel", 3); ("wait_channel", 4)].

Definition doc : Bot.document := [("a1", home_profile); ("b2", away_profile)].

Definition doc_twice : Bot.document :=
  [("a1", home_profile); ("b2", away_profile); ("c3", home_again)].

Definition profiles : Bot.ServerProfiles :=
  {| Bot.data := [(10, home_profile); (20, away_profile)];
     Bot.titles := [(10, "a1"); (20, "b2")] |}.

Definition profiles_twice : Bot.ServerProfiles :=
  {| Bot.data := [(10, home_again); (20, away_profile)];
     Bot.titles := [(10, "c3"); (20, "b2")] |}.

Definition store : Bot.Store :=
  {| Bot.profiles_document := doc; Bot.profiles := profiles |}.

Definition everyone : Bot.Role :=
  {| Bot.role_id := 10; Bot.role_name := "@everyone";
     Bot.role_permissions := 0; Bot.role_position := 0 |}.

Definition moderators : Bot.Role :=
  {| Bot.role_id := 1; Bot.role_name := "Moderators";
     Bot.role_permissions := 2; Bot.role_position := 3 |}.

Definition members : Bot.Role :=
  {| Bot.role_id := 2; Bot.role_name := "Members";
     Bot.role_permissions := 0; Bot.role_position := 1 |}.

Definition bot_role : Bot.Role :=
  {| Bot.role_id := 50; Bot.role_name := "FedBot";
     Bot.role_permissions := 8; Bot.role_position := 5 |}.

Definition guid : string := "E28FA51480C349398E9A116458DBF1FC".

Definition old_admin : Bot.Role :=
  {| Bot.role_id := 60; Bot.role_name := "Admin 0x" ++ guid;
     Bot.role_permissions := 8; Bot.role_position := 4 |}.

Definition bot_member : Bot.User :=
  {| Bot.user_mention := "<@99>"; Bot.user_roles := Some [everyone; bot_role] |}.

Definition moderator : Bot.User :=
  {| Bot.user_mention := "<@77>"; Bot.user_roles := Some [everyone; moderators; members] |}.

Definition home : Bot.Guild :=
  {| Bot.guild_id := 10; Bot.guild_name := "Home";
     Bot.guild_roles := [everyone; members; moderators; old_admin; bot_role];
     Bot.guild_me := Some bot_member;
     Bot.guild_system_channel := Some 7;
     Bot.guild_channels := [3; 4; 7] |}.

Definition elsewhere : Bot.Guild :=
  {| Bot.guild_id := 30; Bot.guild_name := "Elsewhere";
     Bot.guild_roles := [everyone];
     Bot.guild_me := Some bot_member;
     Bot.guild_system_channel := None;
     Bot.guild_channels := [] |}.

Definition at_home : Bot.Interaction :=
  {| Bot.guild := Some home; Bot.user := moderator |}.

Definition at_elsewhere : Bot.Interaction :=
  {| Bot.guild := Some elsewhere; Bot.user := moderator |}.

End BotDemo.

(** ** Facts about the runtime model *)

(** Closed goals about recorded runs are settled by evaluation. *)
Ltac evaluate := vm_compute; reflexivity.


Section CounterFacts.

Lemma counter_get_incr (c : counter) (k k' : string) :
  counter_get (counter_incr c k) k'
  = (counter_get c k' + (if String.eqb k' k then 1 else 0))%Z.
Proof.
  induction c as [|[k0 n] c IH]; simpl.
  - destruct (String.eqb k' k); reflexivity.
  - destruct (String.eqb k k0) eqn:E; simpl.
    + apply String.eqb_eq in E. subst k0.
      destruct (String.eqb k' k); lia.
    + destruct (String.eqb k' k0) eqn:E'.
      * apply String.eqb_eq in E'. subst k'.
        rewrite String.eqb_sym, E. lia.
      * apply IH.
Qed.

Lemma counter_get_fold (l : list string) (c : counter) (k : string) :
  counter_get (fold_left counter_incr l c) k
  = (counter_get c k + Z.of_nat (count_occ string_dec l k))%Z.
Proof.
  revert c. induction l as [|x l IH]; intros c; simpl.
  - lia.
  - rewrite IH, counter_get_incr.
    destruct (string_dec x k) as [->|Hne].
    + rewrite String.eqb_refl. lia.
    + destruct (String.eqb k x) eqn:E.
      * apply String.eqb_eq in E. congruence.
      * lia.
Qed.

(** [word_freq[k]] is the number of occurrences of [k]. *)
Lemma counter_get_Counter (l : list string) (k : string) :
  counter_get (Counter l) k = Z.of_nat (count_occ string_dec l k).
Proof. unfold Counter. rewrite counter_get_fold. reflexivity. Qed.

(** Incrementing never moves the first key. *)
Lemma fold_incr_head (l : list string) (k0 : string) (n0 : Z) (c : counter) :
  exists n c', fold_left counter_incr l ((k0, n0) :: c) = (k0, n) :: c'.
Proof.
  revert n0 c. induction l as [|x l IH]; intros n0 c; simpl.
  - eauto.
  - destruct (String.eqb x k0); apply IH.
Qed.

(** The first value of the counter is the count of the first item counted. *)
Lemma values_Counter_cons (x : string) (l : list string) :
  exists vs, values (Counter (x :: l))
             = Z.of_nat (count_occ string_dec (x :: l) x) :: vs.
Proof.
  destruct (fold_incr_head l x 1%Z []) as (n & c' & E).
  pose proof (counter_get_Counter (x :: l) x) as G.
  unfold Counter in *. simpl in *. rewrite E in *.
  simpl in G. rewrite String.eqb_refl in G. subst n.
  exists (values c'). reflexivity.
Qed.

Lemma Counter_nil_iff (l : list string) : Counter l = [] <-> l = [].
Proof.
  split; [|intros ->; reflexivity].
  destruct l as [|x l]; [reflexivity|]. intros E.
  destruct (values_Counter_cons x l) as (vs & V). rewrite E in V. discriminate.
Qed.

Lemma counter_incr_values_pos (c : counter) (k : string) :
  Forall (fun p => (1 <= snd p)%Z) c ->
  Forall (fun p => (1 <= snd p)%Z) (counter_incr c k).
Proof.
  induction c as [|[k0 n] c IH]; simpl; intros F.
  - constructor; [simpl; lia | constructor].
  - inversion F as [|? ? Hn Hc]; subst. simpl in Hn.
    destruct (String.eqb k k0); constructor; simpl; auto; lia.
Qed.

(** Invariant of the frequency model: every key present has count at least 1. *)
Lemma Counter_values_pos (l : list string) :
  Forall (fun p => (1 <= snd p)%Z) (Counter l).
Proof.
  unfold Counter.
  assert (G : forall c, Forall (fun p => (1 <= snd p)%Z) c ->
                        Forall (fun p => (1 <= snd p)%Z) (fold_left counter_incr l c)).
  { induction l as [|x l IH]; intros c F; simpl; auto.
    apply IH, counter_incr_values_pos, F. }
  apply G. constructor.
Qed.




End CounterFacts.

Section Evaluation.

Variable version : cpython.

Lemma truediv_pos (x : float) (m : Z) :
  (0 < m)%Z -> truediv x m = Ok (x / float_of_int m)%float.
Proof.
  intros Hm. unfold truediv.
  destruct (m =? 0)%Z eqn:E; [|reflexivity].
  apply Z.eqb_eq in E. lia.
Qed.

Lemma truediv_zero (x : float) : truediv x 0 = Raise ZeroDivisionError.
Proof. reflexivity. Qed.

(** With a positive [max_freq] no item of the generator raises. *)
Lemma mapM_truediv (wf : counter) (mf : Z) (j : list string) :
  (0 < mf)%Z ->
  mapM (fun k => truediv (float_of_int (counter_get wf k)) mf) j
  = Ok (map (fun k => (float_of_int (counter_get wf k) / float_of_int mf)%float) j).
Proof.
  intros Hm. induction j as [|k j IH]; simpl.
  - reflexivity.
  - rewrite truediv_pos by exact Hm. cbn [bind]. rewrite IH. reflexivity.
Qed.

Lemma sum_total (wf : counter) (mf : Z) (j : list string) :
  (0 < mf)%Z ->
  sum version (fun k => truediv (float_of_int (counter_get wf k)) mf) j
  = Ok (total_freq version wf mf j).
Proof.
  intros Hm. unfold sum. rewrite mapM_truediv by exact Hm. reflexivity.
Qed.

(** The scorer raises exactly on a sentence without tokens. *)
Lemma sentence_score_eval (wf : counter) (mf : Z) (j : list string) :
  (0 < mf)%Z ->
  sentence_score version wf mf j
  = match j with
    | [] => Raise ZeroDivisionError
    | _ :: _ => Ok (mean_freq version wf mf j)
    end.
Proof.
  intros Hm. unfold sentence_score. rewrite sum_total by exact Hm.
  destruct j as [|k j]; [reflexivity|].
  cbn [bind]. unfold mean_freq.
  apply truediv_pos. simpl. lia.
Qed.

Lemma score_items_ok (wf : counter) (mf : Z) (words : list (list string)) (i : nat) :
  (0 < mf)%Z ->
  Forall (fun j => j <> []) words ->
  score_items version wf mf i words
  = Ok (combine (seq i (List.length words)) (map (mean_freq version wf mf) words)).
Proof.
  intros Hm F. revert i. induction F as [|j words Hj F IH]; intros i; simpl.
  - reflexivity.
  - rewrite sentence_score_eval by exact Hm.
    destruct j as [|k j]; [congruence|]. cbn [bind].
    rewrite IH. reflexivity.
Qed.

Lemma score_items_raise (wf : counter) (mf : Z) (words : list (list string)) (i : nat) :
  (0 < mf)%Z ->
  In [] words ->
  score_items version wf mf i words = Raise ZeroDivisionError.
Proof.
  intros Hm. revert i. induction words as [|j words IH]; intros i Hin; simpl.
  - destruct Hin.
  - rewrite sentence_score_eval by exact Hm.
    destruct j as [|k j]; [reflexivity|]. cbn [bind].
    destruct Hin as [Hin|Hin]; [discriminate|].
    rewrite IH by exact Hin. reflexivity.
Qed.

Lemma max_freq_nil (words : list (list string)) :
  List.concat words = [] -> max_freq (word_freq words) = Raise IndexError.
Proof. intros E. unfold word_freq. rewrite E. reflexivity. Qed.

(** [max_freq] is the count of the first token counted, not a maximum. *)
Lemma max_freq_first (words : list (list string)) (x : string) (rest : list string) :
  List.concat words = x :: rest ->
  max_freq (word_freq words)
  = Ok (Z.of_nat (count_occ string_dec (x :: rest) x)).
Proof.
  intros E. unfold word_freq, max_freq. rewrite E.
  destruct (values_Counter_cons x rest) as (vs & V). rewrite V. reflexivity.
Qed.

Lemma max_freq_pos (words : list (list string)) (mf : Z) :
  max_freq (word_freq words) = Ok mf -> (1 <= mf)%Z.
Proof.
  destruct (List.concat words) as [|x rest] eqn:E.
  - rewrite max_freq_nil by exact E. discriminate.
  - rewrite (max_freq_first _ _ _ E). intros [= <-].
    simpl. destruct (string_dec x x); [lia | congruence].
Qed.

Lemma concat_nil_or_cons (words : list (list string)) :
  In [] words \/ words = [] \/ exists x rest, List.concat words = x :: rest.
Proof.
  destruct words as [|j words]; [auto|].
  destruct j as [|x j]; [left; left; reflexivity|].
  right. right. simpl. eauto.
Qed.

(** The three outcomes of lines 121-126. *)
Lemma freq_by_sentence_no_token (words : list (list string)) :
  List.concat words = [] -> freq_by_sentence version words = Raise IndexError.
Proof.
  intros E. unfold freq_by_sentence. cbv zeta.
  rewrite max_freq_nil by exact E. reflexivity.
Qed.

Lemma freq_by_sentence_empty_sentence (words : list (list string)) :
  List.concat words <> [] -> In [] words ->
  freq_by_sentence version words = Raise ZeroDivisionError.
Proof.
  intros Hne Hin. unfold freq_by_sentence. cbv zeta.
  destruct (List.concat words) as [|x rest] eqn:E; [congruence|].
  rewrite (max_freq_first _ _ _ E). cbn [bind].
  apply score_items_raise; [|exact Hin].
  simpl. destruct (string_dec x x); [lia | congruence].
Qed.

Lemma freq_by_sentence_ok (words : list (list string)) :
  words <> [] -> Forall (fun j => j <> []) words ->
  exists mf, max_freq (word_freq words) = Ok mf /\ (1 <= mf)%Z /\
    freq_by_sentence version words
    = Ok (combine (seq 0 (List.length words))
                  (map (mean_freq version (word_freq words) mf) words)).
Proof.
  intros Hne F.
  destruct words as [|j words]; [congruence|].
  destruct j as [|x j]; [inversion F; congruence|].
  pose proof (max_freq_first ((x :: j) :: words) x (j ++ List.concat words) eq_refl) as M.
  pose proof (max_freq_pos _ _ M) as P.
  eexists. split; [exact M|]. split; [exact P|].
  unfold freq_by_sentence. cbv zeta. rewrite M. cbn [bind].
  apply score_items_ok; [lia | exact F].
Qed.

Lemma mapM_getitem (sentences : list string) (idxs : list nat) :
  Forall (fun j => (j < List.length sentences)%nat) idxs ->
  mapM (getitem sentences) idxs = Ok (pick sentences idxs).
Proof.
  induction 1 as [|j idxs Hj F IH]; simpl; [reflexivity|].
  unfold getitem at 1.
  destruct (nth_error sentences j) as [s|] eqn:E.
  - cbn [bind]. rewrite IH. cbn [bind].
    rewrite (nth_error_nth _ _ "" E). reflexivity.
  - apply nth_error_None in E. lia.
Qed.

End Evaluation.

Section AscendingSort.

Lemma insert_asc_perm (x : nat) (l : list nat) :
  Permutation (insert_asc x l) (x :: l).
Proof.
  induction l as [|y l IH]; simpl; [reflexivity|].
  destruct (x <=? y)%nat; [reflexivity|].
  rewrite IH. apply perm_swap.
Qed.

Lemma sorted_perm (l : list nat) : Permutation (sorted l) l.
Proof.
  induction l as [|x l IH]; simpl; [reflexivity|].
  rewrite insert_asc_perm. constructor. exact IH.
Qed.

Lemma insert_asc_sorted (x : nat) (l : list nat) :
  StronglySorted le l -> StronglySorted le (insert_asc x l).
Proof.
  induction 1 as [|y l S IH F]; simpl.
  - repeat constructor.
  - destruct (x <=? y)%nat eqn:E.
    + apply Nat.leb_le in E. constructor; [constructor; assumption|].
      constructor; [exact E|].
      eapply Forall_impl; [|exact F]. simpl. intros z Hz. lia.
    + apply Nat.leb_gt in E. constructor; [exact IH|].
      rewrite Forall_forall in *. intros z Hz.
      apply (Permutation_in _ (insert_asc_perm x l)) in Hz.
      destruct Hz as [<-|Hz]; [lia | auto].
Qed.

Lemma sorted_sorted (l : list nat) : StronglySorted le (sorted l).
Proof.
  induction l as [|x l IH]; simpl; [constructor|].
  apply insert_asc_sorted, IH.
Qed.

Lemma sorted_le_NoDup_lt (l : list nat) :
  StronglySorted le l -> NoDup l -> StronglySorted lt l.
Proof.
  induction 1 as [|y l S IH F]; intros N; [constructor|].
  inversion N as [|? ? Hnin N']; subst.
  constructor; [auto|].
  rewrite Forall_forall in *. intros z Hz.
  specialize (F z Hz).
  assert (z <> y) by (intros ->; contradiction). lia.
Qed.

(** A list sorted strictly is determined by its elements. *)
Lemma sorted_lt_unique (l1 l2 : list nat) :
  StronglySorted lt l1 -> StronglySorted lt l2 ->
  (forall x, In x l1 <-> In x l2) -> l1 = l2.
Proof.
  intros S1. revert l2.
  induction S1 as [|a l1 S1 IH F1]; intros l2 S2 Hin.
  - destruct l2 as [|b l2]; [reflexivity|].
    destruct (proj2 (Hin b) (or_introl eq_refl)).
  - destruct S2 as [|b l2 S2 F2].
    + destruct (proj1 (Hin a) (or_introl eq_refl)).
    + rewrite Forall_forall in F1, F2.
      assert (a = b) as ->.
      { destruct (proj1 (Hin a) (or_introl eq_refl)) as [E|Ha]; [auto|].
        destruct (proj2 (Hin b) (or_introl eq_refl)) as [E|Hb]; [auto|].
        specialize (F1 _ Hb). specialize (F2 _ Ha). lia. }
      f_equal. apply IH; [exact S2|].
      intros x. split; intros Hx.
      * destruct (proj1 (Hin x) (or_intror Hx)) as [E|H']; [|exact H'].
        specialize (F1 _ Hx). lia.
      * destruct (proj2 (Hin x) (or_intror Hx)) as [E|H']; [|exact H'].
        specialize (F2 _ Hx). lia.
Qed.

Lemma seq_sorted_lt (n i : nat) : StronglySorted lt (seq i n).
Proof.
  revert i. induction n as [|n IH]; intros i; simpl; constructor; [apply IH|].
  rewrite Forall_forall. intros z Hz. apply in_seq in Hz. lia.
Qed.

(** Sorting a list that holds each of [0 .. n-1] once gives [0 .. n-1]. *)
Lemma sorted_perm_seq (l : list nat) (n : nat) :
  Permutation l (seq 0 n) -> sorted l = seq 0 n.
Proof.
  intros P. apply sorted_lt_unique.
  - apply sorted_le_NoDup_lt; [apply sorted_sorted|].
    apply (Permutation_NoDup (l := seq 0 n)); [|apply seq_NoDup].
    symmetry. rewrite sorted_perm. exact P.
  - apply seq_sorted_lt.
  - intros x. split; intros Hx.
    + eapply Permutation_in; [|exact Hx]. rewrite sorted_perm. exact P.
    + eapply Permutation_in; [|exact Hx]. symmetry. rewrite sorted_perm. exact P.
Qed.

End AscendingSort.

Section Precedence.

Context {A : Type}.

Lemma firstn_In (x : A) (k : nat) (l : list A) : In x (firstn k l) -> In x l.
Proof.
  intros Hx. rewrite <- (firstn_skipn k l). apply in_or_app. left. exact Hx.
Qed.

Lemma firstn_NoDup (k : nat) (l : list A) : NoDup l -> NoDup (firstn k l).
Proof.
  intros N. rewrite <- (firstn_skipn k l) in N.
  eapply NoDup_app_remove_r. exact N.
Qed.

Lemma before_cons (a b x : A) (l : list A) :
  before a b l -> before a b (x :: l).
Proof.
  intros (l1 & l2 & l3 & ->). exists (x :: l1), l2, l3. reflexivity.
Qed.

Lemma before_head (a b : A) (l : list A) : In b l -> before a b (a :: l).
Proof.
  intros Hb. apply in_split in Hb. destruct Hb as (l2 & l3 & ->).
  exists [], l2, l3. reflexivity.
Qed.

Lemma before_inv (a b x : A) (l : list A) :
  before a b (x :: l) -> (a = x /\ In b l) \/ before a b l.
Proof.
  intros (l1 & l2 & l3 & E). destruct l1 as [|y l1]; simpl in E.
  - injection E as -> ->. left. split; [reflexivity|].
    apply in_or_app. right. left. reflexivity.
  - injection E as -> ->. right. exists l1, l2, l3. reflexivity.
Qed.

Lemma before_In (a b : A) (l : list A) : before a b l -> In a l /\ In b l.
Proof.
  intros (l1 & l2 & l3 & ->). split.
  - apply in_or_app. right. left. reflexivity.
  - apply in_or_app. right. right. apply in_or_app. right. left. reflexivity.
Qed.

Lemma before_map {B : Type} (f : A -> B) (a b : A) (l : list A) :
  before a b l -> before (f a) (f b) (map f l).
Proof.
  intros (l1 & l2 & l3 & ->).
  exists (map f l1), (map f l2), (map f l3).
  rewrite map_app. simpl. rewrite map_app. reflexivity.
Qed.

(** Cutting a list after [b] keeps whatever came before [b]. *)
Lemma before_firstn (a b : A) (l : list A) (k : nat) :
  NoDup l -> before a b l -> In b (firstn k l) -> before a b (firstn k l).
Proof.
  intros N (l1 & l2 & l3 & ->) Hb.
  replace (l1 ++ a :: l2 ++ b :: l3) with ((l1 ++ a :: l2) ++ b :: l3) in *
    by (rewrite <- app_assoc; reflexivity).
  set (p := l1 ++ a :: l2) in *.
  rewrite firstn_app in *.
  destruct (Nat.le_gt_cases k (List.length p)) as [Hk|Hk].
  - exfalso.
    replace (k - List.length p)%nat with 0%nat in Hb by lia.
    simpl in Hb. rewrite app_nil_r in Hb.
    apply NoDup_remove_2 in N. apply N.
    apply in_or_app. left. eapply firstn_In. exact Hb.
  - rewrite firstn_all2 by lia.
    destruct (k - List.length p)%nat as [|m] eqn:E; [lia|]. simpl.
    exists l1, l2, (firstn m l3). subst p. rewrite <- app_assoc. reflexivity.
Qed.

End Precedence.

(** ** The order of floats

    [<] and [==] on doubles, read through their specification
    [SFcompare]: what the ranking needs of them holds for all doubles,
    NaN included. *)

Section FloatOrder.

Ltac compare_cases :=
  repeat match goal with
         | |- context [PosDef.Pos.compare_cont Eq ?a ?b] =>
             change (PosDef.Pos.compare_cont Eq a b) with (Pos.compare a b)
         | |- context [Z.compare ?a ?b] =>
             let H := fresh in destruct (Z.compare_spec a b) as [H|H|H]
         | |- context [Pos.compare ?a ?b] =>
             let H := fresh in destruct (Pos.compare_spec a b) as [H|H|H]
         end.

Ltac compare_all x y z :=
  destruct x as [[]|[]| |[] ? ?], y as [[]|[]| |[] ? ?], z as [[]|[]| |[] ? ?];
  simpl; try discriminate; try reflexivity;
  compare_cases; simpl; intros ? ?;
  try discriminate; try reflexivity; try lia.

Lemma SFcompare_Lt_trans (x y z : spec_float) :
  SFcompare x y = Some Lt -> SFcompare y z = Some Lt -> SFcompare x z = Some Lt.
Proof. compare_all x y z. Qed.

Lemma SFcompare_Lt_Eq (x y z : spec_float) :
  SFcompare x y = Some Lt -> SFcompare z y = Some Eq -> SFcompare x z = Some Lt.
Proof. compare_all x y z. Qed.

Lemma ltb_irrefl (x : float) : (x <? x)%float = false.
Proof.
  rewrite ltb_spec. unfold SFltb.
  destruct (Prim2SF x) as [[]|[]| |[] m e]; simpl; try reflexivity;
    change (PosDef.Pos.compare_cont Eq m m) with (Pos.compare m m);
    rewrite Z.compare_refl, Pos.compare_refl; reflexivity.
Qed.

Lemma ltb_trans (x y z : float) :
  (x <? y)%float = true -> (y <? z)%float = true -> (x <? z)%float = true.
Proof.
  rewrite !ltb_spec. unfold SFltb. intros H1 H2.
  destruct (SFcompare (Prim2SF x) (Prim2SF y)) as [[]|] eqn:E1; try discriminate.
  destruct (SFcompare (Prim2SF y) (Prim2SF z)) as [[]|] eqn:E2; try discriminate.
  rewrite (SFcompare_Lt_trans _ _ _ E1 E2). reflexivity.
Qed.

Lemma ltb_eqb_r (x y z : float) :
  (x <? y)%float = true -> (z =? y)%float = true -> (x <? z)%float = true.
Proof.
  rewrite !ltb_spec, eqb_spec. unfold SFltb, SFeqb. intros H1 H2.
  destruct (SFcompare (Prim2SF x) (Prim2SF y)) as [[]|] eqn:E1; try discriminate.
  destruct (SFcompare (Prim2SF z) (Prim2SF y)) as [[]|] eqn:E2; try discriminate.
  rewrite (SFcompare_Lt_Eq _ _ _ E1 E2). reflexivity.
Qed.

Lemma eqb_not_ltb (x y : float) :
  (x =? y)%float = true -> (x <? y)%float = false.
Proof.
  rewrite ltb_spec, eqb_spec. unfold SFltb, SFeqb.
  destruct (SFcompare (Prim2SF x) (Prim2SF y)) as [[]|]; try discriminate; reflexivity.
Qed.

(** Of two tied scores neither is smaller, and what is smaller than one is
    smaller than the other. *)
Lemma tied_not_ltb (x y : float) : tied x y -> (x <? y)%float = false.
Proof.
  intros [->|E]; [apply ltb_irrefl | apply eqb_not_ltb, E].
Qed.

Lemma ltb_tied_r (m x y : float) :
  (m <? y)%float = true -> tied x y -> (m <? x)%float = true.
Proof.
  intros H [->|E]; [exact H | exact (ltb_eqb_r _ _ _ H E)].
Qed.

End FloatOrder.

(** ** Doubles that are numbers

    Rounding, read through [binary_round_aux]: the sum and quotient of
    numbers that are not negative are numbers, and an int below 2^53
    converts to a finite double. *)

Section Rounding.

Lemma shr_1_nonneg (mrs : shr_record) :
  (0 <= shr_m mrs)%Z -> (0 <= shr_m (shr_1 mrs))%Z.
Proof. destruct mrs as [[|[p|p|]|p] r s]; simpl; lia. Qed.

Lemma iter_shr_1_nonneg (n : positive) (mrs : shr_record) :
  (0 <= shr_m mrs)%Z -> (0 <= shr_m (iter_pos shr_1 n mrs))%Z.
Proof.
  revert mrs. induction n as [n IH|n IH|]; intros mrs H; simpl.
  - apply IH, IH, shr_1_nonneg, H.
  - apply IH, IH, H.
  - apply shr_1_nonneg, H.
Qed.

Lemma shr_fexp_nonneg (m e : Z) (l : location) :
  (0 <= m)%Z -> (0 <= shr_m (fst (shr_fexp prec emax m e l)))%Z.
Proof.
  intros H. unfold shr_fexp, shr.
  assert (0 <= shr_m (shr_record_of_loc m l))%Z as H'
      by (destruct l as [|[]]; exact H).
  destruct (fexp prec emax (Zdigits2 m + e) - e)%Z; simpl; try exact H'.
  apply iter_shr_1_nonneg, H'.
Qed.

Lemma round_nearest_even_nonneg (m : Z) (l : location) :
  (0 <= m)%Z -> (0 <= round_nearest_even m l)%Z.
Proof.
  intros H. destruct l as [|[]]; simpl; try destruct (Z.even m); lia.
Qed.

Lemma binary_round_aux_signed (sx : bool) (mx ex : Z) (lx : location) :
  (0 <= mx)%Z -> signed sx (binary_round_aux prec emax sx mx ex lx).
Proof.
  intros H. unfold binary_round_aux.
  pose proof (shr_fexp_nonneg mx ex lx H) as H1.
  destruct (shr_fexp prec emax mx ex lx) as [mrs' e']. simpl in H1.
  pose proof (shr_fexp_nonneg _ e' loc_Exact
                (round_nearest_even_nonneg _ (loc_of_shr_record mrs') H1)) as H2.
  destruct (shr_fexp prec emax _ e' loc_Exact) as [mrs'' e'']. simpl in H2.
  destruct (shr_m mrs'') as [|m|m]; [exact eq_refl | | lia].
  destruct (e'' <=? emax - prec)%Z; exact eq_refl.
Qed.

Lemma binary_round_signed (sx : bool) (m : positive) (e : Z) :
  signed sx (binary_round prec emax sx m e).
Proof.
  unfold binary_round.
  destruct (shl_align m e _) as [mz ez]. apply binary_round_aux_signed. lia.
Qed.

Lemma binary_normalize_number (m e : Z) :
  binary_normalize prec emax m e false <> S754_nan.
Proof.
  destruct m as [|p|p]; simpl; [discriminate| |].
  - pose proof (binary_round_signed false p e) as S.
    intros E. rewrite E in S. exact S.
  - pose proof (binary_round_signed true p e) as S.
    intros E. rewrite E in S. exact S.
Qed.

Lemma binary_normalize_signed (m e : Z) :
  (0 <= m)%Z -> signed false (binary_normalize prec emax m e false).
Proof.
  destruct m as [|p|p]; simpl; intros H; [exact eq_refl| |lia].
  apply binary_round_signed.
Qed.

Lemma SFadd_signed (x y : spec_float) :
  signed false x -> signed false y -> signed false (SF64add x y).
Proof.
  unfold SF64add, SFadd.
  destruct x as [[]|[]| |[] mx ex], y as [[]|[]| |[] my ey];
    intros Hx Hy; try discriminate Hx; try discriminate Hy;
    try contradiction; try exact eq_refl.
  apply binary_normalize_signed. unfold cond_Zopp. lia.
Qed.

(** Adding a finite number never gives a NaN. *)
Lemma SFadd_number (x y : spec_float) :
  x <> S754_nan ->
  match y with S754_zero _ | S754_finite _ _ _ => True | _ => False end ->
  SF64add x y <> S754_nan.
Proof.
  unfold SF64add, SFadd.
  destruct x as [[]|[]| |[] mx ex], y as [[]|[]| |[] my ey];
    intros Hx Hy; try discriminate; try contradiction;
    apply binary_normalize_number.
Qed.

Lemma div_eucl_nonneg (a : Z) (b : positive) :
  (0 <= a)%Z -> (0 <= fst (Z.div_eucl a (Zpos b)))%Z.
Proof.
  intros H. change (fst (Z.div_eucl a (Zpos b))) with (a / Zpos b)%Z.
  apply Z.div_pos; lia.
Qed.

Lemma SFdiv_core_nonneg (m1 : positive) (e1 : Z) (m2 : positive) (e2 : Z) :
  (0 <= fst (fst (SFdiv_core_binary prec emax (Zpos m1) e1 (Zpos m2) e2)))%Z.
Proof.
  unfold SFdiv_core_binary.
  set (s := (e1 - e2 - _)%Z).
  set (m' := match s with Zpos _ => Z.shiftl (Zpos m1) s | Z0 => Zpos m1 | Zneg _ => 0%Z end).
  assert (0 <= m')%Z as H.
  { subst m'. destruct s; try lia. apply Z.shiftl_nonneg. lia. }
  pose proof (div_eucl_nonneg m' m2 H) as Q.
  destruct (Z.div_eucl m' (Zpos m2)) as [q r]. exact Q.
Qed.

(** A quotient by a finite non-zero number is a number, of the sign the two
    signs give. *)
Lemma SFdiv_signed (x : spec_float) (s sy : bool) (my : positive) (ey : Z) :
  signed s x -> signed (xorb s sy) (SF64div x (S754_finite sy my ey)).
Proof.
  unfold SF64div, SFdiv.
  destruct x as [sx|sx| |sx mx ex]; intros Hx; try contradiction;
    simpl in Hx; subst; try exact eq_refl.
  pose proof (SFdiv_core_nonneg mx ex my ey) as Q.
  destruct (SFdiv_core_binary prec emax (Zpos mx) ex (Zpos my) ey) as [[q e'] l].
  apply binary_round_aux_signed. exact Q.
Qed.

Lemma signed_number (s : bool) (x : spec_float) : signed s x -> x <> S754_nan.
Proof. intros H E. rewrite E in H. exact H. Qed.

Lemma number_signed (x : spec_float) : x <> S754_nan -> exists s, signed s x.
Proof.
  destruct x as [s|s| |s m e]; intros H; try congruence; exists s; exact eq_refl.
Qed.

End Rounding.

Section Conversion.

Lemma digits2_size (p : positive) : digits2_pos p = Pos.size p.
Proof. induction p as [p IH|p IH|]; simpl; rewrite ?IH; reflexivity. Qed.

Lemma digits2_iter_xO (p k : positive) :
  digits2_pos (Pos.iter xO p k) = (digits2_pos p + k)%positive.
Proof.
  induction k as [|k IH] using Pos.peano_ind.
  - simpl. rewrite Pos.add_1_r. reflexivity.
  - rewrite Pos.iter_succ. simpl. rewrite IH, Pos.add_succ_r. reflexivity.
Qed.

Lemma digits2_le_53 (p : positive) :
  (Zpos p < 2 ^ 53)%Z -> (Zpos (digits2_pos p) <= 53)%Z.
Proof.
  intros H. rewrite digits2_size.
  pose proof (Pos.size_le p) as L.
  assert (2 ^ Zpos (Pos.size p) <= 2 * Zpos p)%Z as L'.
  { rewrite <- Pos2Z.inj_pow. change (2 * Zpos p)%Z with (Zpos p~0).
    apply Pos2Z.pos_le_pos. exact L. }
  destruct (Z.le_gt_cases (Zpos (Pos.size p)) 53) as [?|G]; [assumption|].
  assert (2 ^ 54 <= 2 ^ Zpos (Pos.size p))%Z by (apply Z.pow_le_mono_r; lia).
  change (2 ^ 54)%Z with (2 * 2 ^ 53)%Z in *. lia.
Qed.

(** A mantissa in canonical form is left as it is by the rounding. *)
Lemma binary_round_aux_canonical (s : bool) (m : positive) (e : Z) :
  fexp prec emax (Zpos (digits2_pos m) + e) = e ->
  (e <= emax - prec)%Z ->
  binary_round_aux prec emax s (Zpos m) e loc_Exact = S754_finite s m e.
Proof.
  intros C B.
  assert (shr_fexp prec emax (Zpos m) e loc_Exact
          = ({| shr_m := Zpos m; shr_r := false; shr_s := false |}, e)) as S.
  { unfold shr_fexp. cbn [Zdigits2]. rewrite C, Z.sub_diag. reflexivity. }
  unfold binary_round_aux. rewrite S. cbn [shr_m loc_of_shr_record round_nearest_even].
  rewrite S. cbn [shr_m].
  destruct (e <=? emax - prec)%Z eqn:L; [reflexivity|].
  apply Z.leb_gt in L. lia.
Qed.

Lemma binary_round_int (p : positive) :
  (Zpos p < 2 ^ 53)%Z ->
  exists m e, binary_round prec emax false p 0 = S754_finite false m e.
Proof.
  intros H. pose proof (digits2_le_53 p H) as D.
  unfold binary_round.
  assert (fexp prec emax (Zpos (digits2_pos p) + 0) = Zpos (digits2_pos p) - 53)%Z as F.
  { unfold fexp, SpecFloat.emin, prec, emax. lia. }
  rewrite F. unfold shl_align.
  destruct (Zpos (digits2_pos p) - 53 - 0)%Z as [|k|k] eqn:K; try lia.
  - exists p, 0%Z. apply binary_round_aux_canonical.
    + unfold fexp, SpecFloat.emin, prec, emax. lia.
    + unfold prec, emax. lia.
  - eexists _, _. apply binary_round_aux_canonical.
    + rewrite digits2_iter_xO. unfold fexp, SpecFloat.emin, prec, emax. lia.
    + unfold prec, emax. lia.
Qed.

Lemma float_of_int_positive (z : Z) :
  (0 < z < 2 ^ 53)%Z ->
  exists m e, Prim2SF (float_of_int z) = S754_finite false m e.
Proof.
  intros H. unfold float_of_int. rewrite of_uint63_spec, Uint63.of_Z_spec.
  rewrite Z.mod_small.
  - destruct z as [|p|p]; try lia. simpl. apply binary_round_int. lia.
  - split; [lia|]. eapply Z.lt_trans; [apply H|]. reflexivity.
Qed.

Lemma float_of_int_signed (z : Z) :
  (0 <= z < 2 ^ 53)%Z -> signed false (Prim2SF (float_of_int z)).
Proof.
  intros H. destruct (Z.eq_dec z 0) as [->|Hz].
  - vm_compute. reflexivity.
  - destruct (float_of_int_positive z) as (m & e & ->); [lia | exact eq_refl].
Qed.

End Conversion.


Section Numbers.

Lemma is_nan_spec (x : float) : is_nan x = false <-> Prim2SF x <> S754_nan.
Proof.
  unfold Prim2SF. destruct (is_nan x); split; try congruence; intros _.
  destruct (is_zero x); [discriminate|].
  destruct (is_infinity x); [discriminate|].
  destruct (Z.frexp x) as [r e].
  destruct (shr_fexp prec emax _ _ loc_Exact) as [mrs e'].
  destruct (shr_m mrs); discriminate.
Qed.

Lemma is_finite_spec (x : float) :
  is_finite x = true ->
  match Prim2SF x with S754_zero _ | S754_finite _ _ _ => True | _ => False end.
Proof.
  unfold is_finite. rewrite negb_true_iff, orb_false_iff. intros [N Hi].
  apply is_nan_spec in N. unfold is_infinity in Hi.
  rewrite eqb_spec, abs_spec in Hi.
  destruct (Prim2SF x) as [s|s| |s m e]; try exact I; try congruence.
  destruct s; vm_compute in Hi; discriminate.
Qed.

Lemma SFcompare_number (x y : spec_float) :
  x <> S754_nan -> y <> S754_nan -> exists c, SFcompare x y = Some c.
Proof.
  destruct x as [sx|sx| |sx mx ex], y as [sy|sy| |sy my ey]; simpl;
    intros Hx Hy; try congruence; eauto.
Qed.

Lemma SFcompare_Gt_Lt (x y : spec_float) :
  SFcompare x y = Some Gt -> SFcompare y x = Some Lt.
Proof.
  destruct x as [[]|[]| |[] mx ex], y as [[]|[]| |[] my ey]; simpl;
    try discriminate; try reflexivity;
    change (PosDef.Pos.compare_cont Eq mx my) with (Pos.compare mx my);
    change (PosDef.Pos.compare_cont Eq my mx) with (Pos.compare my mx);
    destruct (Z.compare_spec ex ey), (Z.compare_spec ey ex); try lia;
    destruct (Pos.compare_spec mx my), (Pos.compare_spec my mx);
    simpl; try discriminate; try reflexivity; try lia.
Qed.

(** Two numbers are ordered: one is smaller, or they are equal. *)
Lemma numbers_comparable (x y : float) :
  is_nan x = false -> is_nan y = false ->
  (x <? y)%float || (x =? y)%float || (y <? x)%float = true.
Proof.
  rewrite !is_nan_spec, !ltb_spec, eqb_spec. unfold SFltb, SFeqb. intros Hx Hy.
  destruct (SFcompare_number _ _ Hx Hy) as ([] & E); rewrite E.
  - reflexivity.
  - reflexivity.
  - rewrite (SFcompare_Gt_Lt _ _ E). reflexivity.
Qed.

(** *** The doubles computed by the scorer *)

Lemma zero_plus_signed (x : float) :
  signed false (Prim2SF x) -> signed false (Prim2SF (0 + x)%float).
Proof.
  intros H. rewrite add_spec. apply SFadd_signed; [|exact H].
  vm_compute. reflexivity.
Qed.

Lemma fold_add_signed (rest : list float) (start : float) :
  signed false (Prim2SF start) ->
  Forall (fun x => signed false (Prim2SF x)) rest ->
  signed false (Prim2SF (fold_left PrimFloat.add rest start)).
Proof.
  intros Hs F. revert start Hs. induction F as [|x rest Hx F IH]; intros start Hs.
  - exact Hs.
  - simpl. apply IH. rewrite add_spec. apply SFadd_signed; assumption.
Qed.

Lemma fold_compensate_signed (rest : list float) (f_result c : float) :
  signed false (Prim2SF f_result) ->
  Forall (fun x => signed false (Prim2SF x)) rest ->
  signed false (Prim2SF (fst (fold_left compensate rest (f_result, c)))).
Proof.
  intros Hs F. revert f_result c Hs.
  induction F as [|x rest Hx F IH]; intros f_result c Hs.
  - exact Hs.
  - simpl. destruct (abs x <=? abs f_result)%float; apply IH;
      rewrite add_spec; apply SFadd_signed; assumption.
Qed.

(** A sum of numbers that are not negative is a number. *)
Lemma sum_floats_number (version : cpython) (items : list float) :
  Forall (fun x => signed false (Prim2SF x)) items ->
  Prim2SF (sum_floats version items) <> S754_nan.
Proof.
  intros F. destruct F as [|x rest Hx F]; [vm_compute; discriminate|].
  pose proof (zero_plus_signed x Hx) as Hs.
  destruct version; simpl.
  - apply (signed_number false), fold_add_signed; assumption.
  - pose proof (fold_compensate_signed rest _ 0%float Hs F) as H.
    destruct (fold_left compensate rest ((0 + x)%float, 0%float)) as [f_result c].
    simpl in H.
    destruct (negb (c =? 0)%float && is_finite c) eqn:C.
    + apply andb_true_iff in C. destruct C as [_ C].
      rewrite add_spec. apply SFadd_number.
      * apply (signed_number false), H.
      * apply is_finite_spec, C.
    + apply (signed_number false), H.
Qed.

Lemma word_value_signed (c mf : Z) :
  (0 <= c < 2 ^ 53)%Z -> (0 < mf < 2 ^ 53)%Z ->
  signed false (Prim2SF (float_of_int c / float_of_int mf)%float).
Proof.
  intros Hc Hm. rewrite div_spec.
  destruct (float_of_int_positive mf Hm) as (m & e & ->).
  apply (SFdiv_signed _ false false), float_of_int_signed, Hc.
Qed.

(** The score of a sentence with tokens is a number, when the counts and
    the length are below 2^53. *)
Lemma mean_freq_number (version : cpython) (wf : counter) (mf : Z) (j : list string) :
  (forall k, 0 <= counter_get wf k < 2 ^ 53)%Z ->
  (0 < mf < 2 ^ 53)%Z ->
  (0 < Z.of_nat (List.length j) < 2 ^ 53)%Z ->
  is_nan (mean_freq version wf mf j) = false.
Proof.
  intros Hc Hm Hj. apply is_nan_spec. unfold mean_freq, total_freq.
  rewrite div_spec.
  destruct (float_of_int_positive _ Hj) as (m & e & ->).
  match goal with
  | |- SF64div (Prim2SF (sum_floats version ?items)) _ <> _ =>
      assert (Prim2SF (sum_floats version items) <> S754_nan) as N
  end.
  { apply sum_floats_number. rewrite Forall_forall. intros x Hx.
    apply in_map_iff in Hx. destruct Hx as (k & <- & _).
    apply word_value_signed; [apply Hc | exact Hm]. }
  destruct (number_signed _ N) as (s & S).
  apply (signed_number (xorb s false)), SFdiv_signed, S.
Qed.

End Numbers.

Section Ranking.

Lemma insert_desc_perm (x : nat * float) (l : list (nat * float)) :
  Permutation (insert_desc x l) (x :: l).
Proof.
  induction l as [|y l IH]; simpl; [reflexivity|].
  destruct (snd x <? snd y)%float; [|reflexivity].
  rewrite IH. apply perm_swap.
Qed.

Lemma sorted_desc_perm (l : list (nat * float)) : Permutation (sorted_desc l) l.
Proof.
  induction l as [|x l IH]; simpl; [reflexivity|].
  rewrite insert_desc_perm. constructor. exact IH.
Qed.

(** Inserting an item leaves the relative order of the others alone. *)
Lemma insert_desc_before_old (x a b : nat * float) (l : list (nat * float)) :
  before a b l -> before a b (insert_desc x l).
Proof.
  induction l as [|y l IH]; simpl; intros Hab.
  - destruct Hab as (l1 & l2 & l3 & E). destruct l1; discriminate.
  - destruct (snd x <? snd y)%float; [|apply before_cons, Hab].
    apply before_inv in Hab. destruct Hab as [[-> Hb]|Hab].
    + apply before_head.
      apply (Permutation_in _ (Permutation_sym (insert_desc_perm x l))).
      right. exact Hb.
    + apply before_cons, IH, Hab.
Qed.

(** The inserted item lands before every item that is not strictly greater. *)
Lemma insert_desc_before_new (x b : nat * float) (l : list (nat * float)) :
  In b l -> (snd x <? snd b)%float = false -> before x b (insert_desc x l).
Proof.
  induction l as [|y l IH]; simpl; intros Hb Hxb; [destruct Hb|].
  destruct (snd x <? snd y)%float eqn:E.
  - destruct Hb as [->|Hb]; [congruence|].
    apply before_cons, IH; assumption.
  - apply before_head. exact Hb.
Qed.

(** Stability of the ranking: an item that comes first and is not strictly
    smaller stays first. *)
Lemma sorted_desc_stable (a b : nat * float) (l : list (nat * float)) :
  before a b l -> (snd a <? snd b)%float = false -> before a b (sorted_desc l).
Proof.
  induction l as [|x l IH]; simpl; intros Hab Hle.
  - destruct Hab as (l1 & l2 & l3 & E). destruct l1; discriminate.
  - apply before_inv in Hab. destruct Hab as [[-> Hb]|Hab].
    + apply insert_desc_before_new; [|exact Hle].
      apply (Permutation_in _ (Permutation_sym (sorted_desc_perm l))). exact Hb.
    + apply insert_desc_before_old, IH; assumption.
Qed.

(** [max] returns one of the items. *)
Lemma max_by_value_In (x : nat * float) (rest : list (nat * float)) :
  In (max_by_value x rest) (x :: rest).
Proof.
  unfold max_by_value. revert x. induction rest as [|y r IH]; intros x.
  - left. reflexivity.
  - cbn [fold_left]. specialize (IH (if (snd x <? snd y)%float then y else x)).
    destruct (snd x <? snd y)%float; destruct IH as [<-|IH]; simpl; auto.
Qed.

Lemma max_by_value_app (x b : nat * float) (l1 l2 : list (nat * float)) :
  max_by_value x (l1 ++ b :: l2)
  = max_by_value (if (snd (max_by_value x l1) <? snd b)%float
                  then b else max_by_value x l1) l2.
Proof. unfold max_by_value. rewrite fold_left_app. reflexivity. Qed.

(** No item is greater than the one [max] returns. *)
Lemma max_by_value_not_less (rest seen : list (nat * float)) (m : nat * float) :
  (forall a, In a seen -> (snd m <? snd a)%float = false) ->
  forall a, In a (seen ++ rest) ->
            (snd (max_by_value m rest) <? snd a)%float = false.
Proof.
  revert seen m. induction rest as [|y r IH]; intros seen m Hm a Ha.
  - rewrite app_nil_r in Ha. apply Hm, Ha.
  - change (max_by_value m (y :: r))
      with (max_by_value (if (snd m <? snd y)%float then y else m) r).
    apply (IH (seen ++ [y])).
    + intros a' Ha'. apply in_app_or in Ha'.
      destruct (snd m <? snd y)%float eqn:E.
      * destruct Ha' as [Ha'|[<-|[]]]; [|apply ltb_irrefl].
        destruct (snd y <? snd a')%float eqn:E'; [|reflexivity].
        rewrite <- (Hm a' Ha'). symmetry. exact (ltb_trans _ _ _ E E').
      * destruct Ha' as [Ha'|[<-|[]]]; [apply Hm, Ha' | exact E].
    + rewrite <- app_assoc. exact Ha.
Qed.

Lemma max_by_value_greatest (x : nat * float) (rest : list (nat * float)) (a : nat * float) :
  In a (x :: rest) -> (snd (max_by_value x rest) <? snd a)%float = false.
Proof.
  intros Ha. apply (max_by_value_not_less rest [x] x).
  - intros a' [<-|[]]. apply ltb_irrefl.
  - exact Ha.
Qed.

(** [max] does not return an item that comes after one it ties with. *)
Lemma max_by_value_first (x : nat * float) (rest : list (nat * float))
    (a b : nat * float) :
  NoDup (map fst (x :: rest)) ->
  before a b (x :: rest) -> tied (snd a) (snd b) ->
  max_by_value x rest <> b.
Proof.
  intros N (l1 & l2 & l3 & E) T.
  assert (exists r1, rest = r1 ++ b :: l3 /\ In a (x :: r1)) as (r1 & -> & Ha).
  { destruct l1 as [|x' l1]; simpl in E; injection E as <- ->.
    - exists l2. split; [reflexivity | left; reflexivity].
    - exists (l1 ++ a :: l2). split.
      + rewrite <- app_assoc. reflexivity.
      + right. apply in_or_app. right. left. reflexivity. }
  rewrite max_by_value_app.
  pose proof (max_by_value_greatest x r1 a Ha) as G.
  destruct (snd (max_by_value x r1) <? snd b)%float eqn:L.
  - rewrite (ltb_tied_r _ _ _ L T) in G. discriminate.
  - intros Hb.
    pose proof (max_by_value_In (max_by_value x r1) l3) as Hin.
    rewrite Hb in Hin.
    assert (In b (x :: r1 ++ l3)) as Hin'.
    { destruct Hin as [Hin|Hin].
      - rewrite <- Hin. pose proof (max_by_value_In x r1) as [H|H].
        + left. exact H.
        + right. apply in_or_app. left. exact H.
      - right. apply in_or_app. right. exact Hin. }
    change (x :: r1 ++ b :: l3) with ((x :: r1) ++ b :: l3) in N.
    rewrite map_app in N. cbn [map] in N.
    apply (NoDup_remove_2 (map fst (x :: r1))) in N.
    apply N. rewrite <- map_app. apply (in_map fst) in Hin'. exact Hin'.
Qed.

(** The branches of [nlargest]: the first [n] items of the stable descending
    sort (nothing for [n <= 0]), or for [n = 1] the item [max] returns. *)
Lemma nlargest_cases (n : Z) (items : list (nat * float)) :
  nlargest n items = firstn (Z.to_nat n) (sorted_desc items)
  \/ (n = 1%Z /\ exists x rest, items = x :: rest
                              /\ nlargest n items = [max_by_value x rest]).
Proof.
  unfold nlargest. destruct (n =? 1)%Z eqn:E.
  - apply Z.eqb_eq in E. subst n. destruct items as [|x rest].
    + left. reflexivity.
    + right. split; [reflexivity|]. exists x, rest. split; reflexivity.
  - left. destruct (Z.of_nat (List.length items) <=? n)%Z eqn:L; [|reflexivity].
    apply Z.leb_le in L. unfold slice_to.
    destruct (n <? 0)%Z eqn:N; [|reflexivity].
    apply Z.ltb_lt in N. lia.
Qed.

Lemma most_common_nonpositive (n : Z) (items : list (nat * float)) :
  (n <= 0)%Z -> most_common n items = [].
Proof.
  intros Hn. unfold most_common.
  destruct (nlargest_cases n items) as [->|(-> & _)]; [|lia].
  replace (Z.to_nat n) with 0%nat by lia. reflexivity.
Qed.

Lemma most_common_length (n : Z) (items : list (nat * float)) :
  List.length (most_common n items) = Nat.min (Z.to_nat n) (List.length items).
Proof.
  unfold most_common.
  destruct (nlargest_cases n items) as [->|(-> & x & rest & -> & ->)].
  - rewrite length_firstn.
    rewrite (Permutation_length (sorted_desc_perm items)). reflexivity.
  - reflexivity.
Qed.

Lemma most_common_all (n : Z) (items : list (nat * float)) :
  (Z.of_nat (List.length items) <= n)%Z ->
  Permutation (most_common n items) items.
Proof.
  intros Hn. unfold most_common.
  destruct (nlargest_cases n items) as [->|(-> & x & rest & -> & ->)].
  - rewrite firstn_all2.
    + apply sorted_desc_perm.
    + rewrite (Permutation_length (sorted_desc_perm items)). lia.
  - destruct rest as [|y rest]; [reflexivity|]. simpl in Hn. lia.
Qed.

Lemma most_common_In (n : Z) (items : list (nat * float)) (a : nat * float) :
  In a (most_common n items) -> In a items.
Proof.
  unfold most_common.
  destruct (nlargest_cases n items) as [->|(-> & x & rest & -> & ->)]; intros Ha.
  - apply firstn_In in Ha.
    eapply Permutation_in; [apply sorted_desc_perm | exact Ha].
  - destruct Ha as [<-|[]]. apply max_by_value_In.
Qed.

Lemma most_common_NoDup (n : Z) (items : list (nat * float)) :
  NoDup (map fst items) -> NoDup (map fst (most_common n items)).
Proof.
  intros N. unfold most_common.
  destruct (nlargest_cases n items) as [->|(-> & x & rest & -> & ->)].
  - rewrite <- firstn_map. apply firstn_NoDup.
    eapply Permutation_NoDup; [|exact N].
    apply Permutation_map. symmetry. apply sorted_desc_perm.
  - simpl. constructor; [intros [] | constructor].
Qed.

(** The tie-break of the ranking: of two items that tie, the one that comes
    first in the counter is ranked first, and is taken whenever the other
    is. *)
Lemma most_common_stable (n : Z) (items : list (nat * float)) (a b : nat * float) :
  NoDup (map fst items) ->
  before a b items -> tied (snd a) (snd b) ->
  In b (most_common n items) -> before a b (most_common n items).
Proof.
  intros N Hab T. unfold most_common.
  destruct (nlargest_cases n items) as [->|(-> & x & rest & -> & ->)].
  - apply before_firstn.
    + apply (NoDup_map_inv fst).
      eapply Permutation_NoDup; [|exact N].
      apply Permutation_map. symmetry. apply sorted_desc_perm.
    + apply sorted_desc_stable; [exact Hab|]. apply tied_not_ltb, T.
  - intros [Hb|[]]. destruct (max_by_value_first x rest a b N Hab T Hb).
Qed.

(** *** Rankings without ties

    When no two scores are equal the ranking does not depend on the order
    in which the items are read. *)








End Ranking.

(** ** The outcomes of [summarize] *)

Section Outcomes.

Variable version : cpython.
Variable sent_tokenize : string -> list string.
Variable word_tokenize : string -> list string.
Variable ignored_words : list string.

Local Abbreviation words_of' := (words_of word_tokenize ignored_words).
Local Abbreviation summarize' := (summarize version sent_tokenize word_tokenize ignored_words).

Lemma words_of_length (sentences : list string) :
  List.length (words_of' sentences) = List.length sentences.
Proof. unfold words_of. apply length_map. Qed.

Lemma words_of_nil (sentences : list string) :
  words_of' sentences = [] <-> sentences = [].
Proof.
  split; [|intros ->; reflexivity].
  destruct sentences; [reflexivity | discriminate].
Qed.

Lemma words_of_In (sentences : list string) (s : string) :
  In s sentences ->
  In (filter (significant ignored_words) (word_tokenize s)) (words_of' sentences).
Proof.
  intros Hs. unfold words_of.
  apply (in_map (fun i => filter (significant ignored_words) (word_tokenize i))).
  exact Hs.
Qed.

Lemma words_cases (words : list (list string)) :
  words = [] \/ In [] words \/ (words <> [] /\ Forall (fun j => j <> []) words).
Proof.
  induction words as [|j words IH]; [auto|]. right.
  destruct j as [|x j]; [left; left; reflexivity|].
  destruct IH as [->|[Hin|[_ F]]].
  - right. split; [discriminate|]. repeat constructor. discriminate.
  - left. right. exact Hin.
  - right. split; [discriminate|]. constructor; [discriminate | exact F].
Qed.

Lemma In_nil_raises (words : list (list string)) :
  In [] words ->
  freq_by_sentence version words = Raise IndexError
  \/ freq_by_sentence version words = Raise ZeroDivisionError.
Proof.
  intros Hin. destruct (List.concat words) as [|x rest] eqn:E.
  - left. apply freq_by_sentence_no_token, E.
  - right. apply freq_by_sentence_empty_sentence; [congruence | exact Hin].
Qed.

(** When the scores exist, every sentence has tokens and the counter holds
    one item per sentence, keyed [0 .. n-1] in this order. *)
Lemma freq_by_sentence_inv (words : list (list string)) (fbs : list (nat * float)) :
  freq_by_sentence version words = Ok fbs ->
  words <> [] /\ Forall (fun j => j <> []) words /\
  exists mf, max_freq (word_freq words) = Ok mf /\ (1 <= mf)%Z /\
    fbs = combine (seq 0 (List.length words))
                  (map (mean_freq version (word_freq words) mf) words).
Proof.
  intros E. destruct (words_cases words) as [->|[Hin|[Hne F]]].
  - discriminate.
  - destruct (In_nil_raises _ Hin) as [R|R]; congruence.
  - split; [exact Hne|]. split; [exact F|].
    destruct (freq_by_sentence_ok version _ Hne F) as (mf & M & P & V).
    exists mf. repeat split; try assumption. congruence.
Qed.

Lemma fst_combine_seq {B : Type} (s : nat) (vals : list B) :
  map fst (combine (seq s (List.length vals)) vals) = seq s (List.length vals).
Proof.
  revert s. induction vals as [|v vals IH]; intros s; simpl; [reflexivity|].
  rewrite IH. reflexivity.
Qed.

Lemma freq_by_sentence_keys (words : list (list string)) (fbs : list (nat * float)) :
  freq_by_sentence version words = Ok fbs ->
  map fst fbs = seq 0 (List.length words).
Proof.
  intros E. apply freq_by_sentence_inv in E.
  destruct E as (_ & _ & mf & _ & _ & ->).
  rewrite <- (length_map (mean_freq version (word_freq words) mf) words).
  apply fst_combine_seq.
Qed.

Lemma chosen_perm (k : Z) (fbs : list (nat * float)) :
  Permutation (chosen k fbs) (map fst (most_common k fbs)).
Proof. apply sorted_perm. Qed.

Lemma chosen_sorted (k : Z) (fbs : list (nat * float)) :
  NoDup (map fst fbs) -> StronglySorted lt (chosen k fbs).
Proof.
  intros N. apply sorted_le_NoDup_lt; [apply sorted_sorted|].
  eapply Permutation_NoDup; [symmetry; apply chosen_perm|].
  apply most_common_NoDup, N.
Qed.

Lemma chosen_In (k : Z) (fbs : list (nat * float)) (j : nat) :
  In j (chosen k fbs) -> In j (map fst fbs).
Proof.
  intros Hj. apply (Permutation_in _ (chosen_perm k fbs)) in Hj.
  apply in_map_iff in Hj. destruct Hj as (a & <- & Ha).
  apply in_map, (most_common_In k), Ha.
Qed.

Lemma chosen_length (k : Z) (fbs : list (nat * float)) :
  List.length (chosen k fbs) = Nat.min (Z.to_nat k) (List.length fbs).
Proof.
  rewrite (Permutation_length (chosen_perm k fbs)), length_map.
  apply most_common_length.
Qed.

Lemma chosen_all (k : Z) (fbs : list (nat * float)) (n : nat) :
  map fst fbs = seq 0 n -> (Z.of_nat n <= k)%Z -> chosen k fbs = seq 0 n.
Proof.
  intros K Hk. unfold chosen. apply sorted_perm_seq.
  rewrite <- K. apply Permutation_map, most_common_all.
  rewrite <- (length_map fst fbs), K, length_seq. exact Hk.
Qed.

Lemma chosen_nonpositive (k : Z) (fbs : list (nat * float)) :
  (k <= 0)%Z -> chosen k fbs = [].
Proof.
  intros Hk. unfold chosen. rewrite most_common_nonpositive by exact Hk.
  reflexivity.
Qed.

Lemma pick_all (sentences : list string) :
  pick sentences (seq 0 (List.length sentences)) = sentences.
Proof.
  unfold pick. induction sentences as [|s l IH]; [reflexivity|].
  simpl. f_equal. rewrite <- seq_shift, map_map. exact IH.
Qed.

(** Line 127 when the scores exist: the summary is the join of the chosen
    sentences. *)
Lemma summarize_scored (text : string) (k : Z) (fbs : list (nat * float)) :
  freq_by_sentence version (words_of' (sent_tokenize text)) = Ok fbs ->
  summarize' text k
  = Ok (VStr (join " " (pick (sent_tokenize text) (chosen k fbs)))).
Proof.
  intros E. pose proof (freq_by_sentence_inv _ _ E) as (Hne & _).
  pose proof (freq_by_sentence_keys _ _ E) as K.
  rewrite words_of_length in K.
  unfold summarize. cbv zeta.
  destruct (words_of' (sent_tokenize text)) as [|j words] eqn:W; [congruence|].
  rewrite E. cbn [bind].
  rewrite mapM_getitem; [reflexivity|].
  rewrite Forall_forall. intros i Hi.
  apply chosen_In in Hi. rewrite K in Hi. apply in_seq in Hi. lia.
Qed.

Lemma summarize_raises (text : string) (k : Z) (e : exn) :
  sent_tokenize text <> [] ->
  freq_by_sentence version (words_of' (sent_tokenize text)) = Raise e ->
  summarize' text k = Raise e.
Proof.
  intros Hne E. unfold summarize. cbv zeta.
  destruct (words_of' (sent_tokenize text)) as [|j words] eqn:W.
  - apply words_of_nil in W. congruence.
  - rewrite E. reflexivity.
Qed.

Lemma summarize_no_sentence (text : string) (k : Z) :
  sent_tokenize text = [] -> summarize' text k = Ok (VList []).
Proof. intros E. unfold summarize. rewrite E. reflexivity. Qed.

End Outcomes.

(** ** The scores are numbers *)

Section Scores.

Lemma length_le_concat (words : list (list string)) (j : list string) :
  In j words -> (List.length j <= List.length (List.concat words))%nat.
Proof.
  induction words as [|w words IH]; intros Hin; [destruct Hin|].
  simpl. rewrite length_app. destruct Hin as [->|Hin]; [lia|].
  specialize (IH Hin). lia.
Qed.

Lemma max_freq_le_length (words : list (list string)) (mf : Z) :
  max_freq (word_freq words) = Ok mf ->
  (mf <= Z.of_nat (List.length (List.concat words)))%Z.
Proof.
  intros M. destruct (List.concat words) as [|x rest] eqn:C.
  - rewrite (max_freq_nil _ C) in M. discriminate.
  - rewrite (max_freq_first _ _ _ C) in M.
    assert (mf = Z.of_nat (count_occ string_dec (x :: rest) x)) as -> by congruence.
    pose proof (count_occ_bound string_dec x (x :: rest)). lia.
Qed.

(** X17.  The doubles ranked by [most_common] are never NaN, so any two of
    them are ordered by [<] or equal by [==]: the comparisons of [max],
    [sorted] and [heapq.nlargest] order them as numbers.  For a text of
    fewer than 2^53 significant tokens, where every count and length
    converts to a double exactly. *)
Theorem scores_are_comparable (version : cpython) (words : list (list string))
    (fbs : list (nat * float)) :
  (Z.of_nat (List.length (List.concat words)) < 2 ^ 53)%Z ->
  freq_by_sentence version words = Ok fbs ->
  Forall (fun p => is_nan (snd p) = false) fbs
  /\ forall a b, In a fbs -> In b fbs ->
                 (snd a <? snd b)%float || (snd a =? snd b)%float
                 || (snd b <? snd a)%float = true.
Proof.
  intros B E.
  assert (Forall (fun p => is_nan (snd p) = false) fbs) as N.
  { destruct (freq_by_sentence_inv version _ _ E) as (_ & F & mf & M & P & ->).
    rewrite Forall_forall in *. intros [i s] Hin. simpl.
    apply in_combine_r in Hin. apply in_map_iff in Hin.
    destruct Hin as (j & <- & Hj).
    pose proof (max_freq_le_length words mf M) as Hm.
    apply mean_freq_number.
    - intros k. unfold word_freq. rewrite counter_get_Counter.
      pose proof (count_occ_bound string_dec k (List.concat words)). lia.
    - lia.
    - pose proof (length_le_concat words j Hj).
      specialize (F j Hj). destruct j; [congruence|]. simpl List.length in *. lia. }
  split; [exact N|].
  rewrite Forall_forall in N. intros a b Ha Hb.
  apply numbers_comparable; apply N; assumption.
Qed.

End Scores.

(** ** Degenerate inputs: no sentence, or a sentence without tokens *)

Section Degenerate.

Variable version : cpython.
Variable sent_tokenize : string -> list string.
Variable word_tokenize : string -> list string.
Variable ignored_words : list string.

Local Abbreviation tokens_of := (fun s => filter (significant ignored_words) (word_tokenize s)).
Local Abbreviation words_of' := (words_of word_tokenize ignored_words).
Local Abbreviation summarize' := (summarize version sent_tokenize word_tokenize ignored_words).

Lemma concat_all_nil (sentences : list string) :
  (forall s, In s sentences -> tokens_of s = []) ->
  List.concat (words_of' sentences) = [].
Proof.
  induction sentences as [|s l IH]; intros H; [reflexivity|].
  simpl. rewrite (H s (or_introl eq_refl)). simpl.
  apply IH. intros s' Hs'. apply H. right. exact Hs'.
Qed.

(** C1 (the code departs from the claim).  When the text has at least one
    sentence and no sentence keeps a token (a text of stopwords and
    punctuation only), [summarize] does not reach a fallback: the guard
    [if not words] only tests that there is no sentence, so the frequency
    counter is empty and [list(word_freq.values())[0]] raises [IndexError],
    for every requested length [k]. *)
Theorem summarize_raises_without_tokens (text : string) (k : Z) :
  sent_tokenize text <> [] ->
  (forall s, In s (sent_tokenize text) -> tokens_of s = []) ->
  summarize' text k = Raise IndexError.
Proof.
  intros Hne Hall. apply summarize_raises; [exact Hne|].
  apply freq_by_sentence_no_token, concat_all_nil, Hall.
Qed.

(** C2 (the code departs from the claim).  A sentence without tokens is not
    filtered out before scoring: as soon as the text has some token, the
    score of that sentence is computed, its [sum] is [0] and the division by
    [len(j) = 0] raises [ZeroDivisionError] out of [summarize]. *)
Theorem summarize_divides_by_zero (text : string) (k : Z) (s : string) :
  In s (sent_tokenize text) ->
  tokens_of s = [] ->
  List.concat (words_of' (sent_tokenize text)) <> [] ->
  summarize' text k = Raise ZeroDivisionError.
Proof.
  intros Hs He Hc. apply summarize_raises.
  - intros E. rewrite E in Hs. destruct Hs.
  - apply freq_by_sentence_empty_sentence; [exact Hc|].
    rewrite <- He. apply words_of_In, Hs.
Qed.

(** [summarize] returns exactly when every sentence keeps a token (or there
    is no sentence at all). *)
Lemma summarize_returns_iff (text : string) (k : Z) :
  (exists v, summarize' text k = Ok v)
  <-> Forall (fun j => j <> []) (words_of' (sent_tokenize text)).
Proof.
  split.
  - intros (v & E).
    destruct (words_cases (words_of' (sent_tokenize text))) as [W|[Hin|[_ F]]].
    + rewrite W. constructor.
    + assert (sent_tokenize text <> []) as Hne.
      { intros E'. rewrite E' in Hin. destruct Hin. }
      destruct (In_nil_raises version _ Hin) as [R|R];
        rewrite (summarize_raises version _ _ _ _ _ _ Hne R) in E; discriminate.
    + exact F.
  - intros F.
    destruct (words_cases (words_of' (sent_tokenize text))) as [W|[Hin|[Hne _]]].
    + apply words_of_nil in W. eexists. apply summarize_no_sentence, W.
    + rewrite Forall_forall in F. destruct (F _ Hin eq_refl).
    + destruct (freq_by_sentence_ok version _ Hne F) as (mf & _ & _ & E).
      eexists. apply summarize_scored, E.
Qed.

(** C10.  [summarize] returns a list rather than a string exactly when the
    segmenter yields no sentence (having only unscorable sentences does not
    select this branch), and the list returned is then the list of
    sentences itself, that is the empty list. *)
Theorem fallback_iff_no_sentence (text : string) (k : Z) :
  ((exists l, summarize' text k = Ok (VList l)) <-> sent_tokenize text = [])
  /\ (forall l, summarize' text k = Ok (VList l) ->
                l = sent_tokenize text /\ l = [])
  /\ (sent_tokenize text <> [] ->
      Forall (fun j => j = []) (words_of' (sent_tokenize text)) ->
      summarize' text k = Raise IndexError).
Proof.
  assert (forall l, summarize' text k = Ok (VList l) -> sent_tokenize text = [] /\ l = [])
    as Inv.
  { intros l E. unfold summarize in E. cbv zeta in E.
    destruct (words_of' (sent_tokenize text)) as [|j words] eqn:W.
    - apply words_of_nil in W. rewrite W in E. injection E as <-. auto.
    - destruct (freq_by_sentence version (j :: words)) as [fbs|e]; [|discriminate].
      cbn [bind] in E.
      destruct (mapM (getitem (sent_tokenize text)) (chosen k fbs));
        discriminate. }
  split; [split|split].
  - intros (l & E). apply (Inv l E).
  - intros E. exists []. apply summarize_no_sentence, E.
  - intros l E. destruct (Inv l E) as [E1 E2]. split; congruence.
  - intros Hne F. apply summarize_raises; [exact Hne|].
    apply freq_by_sentence_no_token.
    induction F as [|j words Hj F IH]; [reflexivity|].
    simpl. rewrite Hj, IH. reflexivity.
Qed.

(** With [k <= 0] and a score for every sentence, nothing is chosen and the
    summary is the empty string. *)
Lemma summarize_nonpositive (text : string) (k : Z) (fbs : list (nat * float)) :
  (k <= 0)%Z ->
  freq_by_sentence version (words_of' (sent_tokenize text)) = Ok fbs ->
  summarize' text k = Ok (VStr "").
Proof.
  intros Hk E. rewrite (summarize_scored version _ _ _ _ _ _ E).
  rewrite chosen_nonpositive by exact Hk. reflexivity.
Qed.

End Degenerate.

(** ** Selection and order of the summary *)

Section Selection.

Variable version : cpython.
Variable sent_tokenize : string -> list string.
Variable word_tokenize : string -> list string.
Variable ignored_words : list string.

Local Abbreviation words_of' := (words_of word_tokenize ignored_words).
Local Abbreviation summarize' := (summarize version sent_tokenize word_tokenize ignored_words).

(** C6.  Whenever [summarize] returns, what it returns is made of the
    sentences at strictly increasing positions of the segmented text (joined
    by a space, or as the list itself in the no-sentence branch): a sentence
    that precedes another in the text precedes it in the summary. *)
Theorem summary_keeps_text_order (text : string) (k : Z) (v : value) :
  summarize' text k = Ok v ->
  exists idxs : list nat,
    StronglySorted lt idxs
    /\ Forall (fun j => (j < List.length (sent_tokenize text))%nat) idxs
    /\ (v = VStr (join " " (pick (sent_tokenize text) idxs))
        \/ v = VList (pick (sent_tokenize text) idxs)).
Proof.
  intros E.
  destruct (words_cases (words_of' (sent_tokenize text))) as [W|[Hin|[Hne F]]].
  - apply words_of_nil in W.
    rewrite (summarize_no_sentence version _ _ _ _ _ W) in E. injection E as <-.
    exists []. split; [constructor|]. split; [constructor|]. right. reflexivity.
  - assert (sent_tokenize text <> []) as Hs.
    { intros E'. rewrite E' in Hin. destruct Hin. }
    destruct (In_nil_raises version _ Hin) as [R|R];
      rewrite (summarize_raises version _ _ _ _ _ _ Hs R) in E; discriminate.
  - destruct (freq_by_sentence_ok version _ Hne F) as (mf & _ & _ & S).
    remember (combine (seq 0 (List.length (words_of' (sent_tokenize text))))
                      (map (mean_freq version (word_freq (words_of' (sent_tokenize text))) mf)
                           (words_of' (sent_tokenize text)))) as fbs eqn:Hfbs.
    clear Hfbs.
    pose proof (freq_by_sentence_keys version _ _ S) as K.
    rewrite words_of_length in K.
    rewrite (summarize_scored version _ _ _ _ _ _ S) in E. injection E as <-.
    eexists. split; [|split; [|left; reflexivity]].
    + apply chosen_sorted. rewrite K. apply seq_NoDup.
    + rewrite Forall_forall. intros j Hj.
      apply chosen_In in Hj. rewrite K in Hj. apply in_seq in Hj. lia.
Qed.

(** When every sentence of a non-empty text keeps a token and [k >= 1], the
    summary holds [min k n] of the [n] sentences, in text order; with
    [k >= n] it is all of them, each once. *)
Lemma summary_size (text : string) (k : Z) :
  sent_tokenize text <> [] ->
  Forall (fun j => j <> []) (words_of' (sent_tokenize text)) ->
  (1 <= k)%Z ->
  exists idxs : list nat,
    summarize' text k = Ok (VStr (join " " (pick (sent_tokenize text) idxs)))
    /\ StronglySorted lt idxs
    /\ List.length idxs = Nat.min (Z.to_nat k) (List.length (sent_tokenize text))
    /\ ((Z.of_nat (List.length (sent_tokenize text)) <= k)%Z ->
        idxs = seq 0 (List.length (sent_tokenize text))
        /\ summarize' text k = Ok (VStr (join " " (sent_tokenize text)))).
Proof.
  intros Hs F Hk.
  assert (words_of' (sent_tokenize text) <> []) as Hne.
  { intros W. apply words_of_nil in W. congruence. }
  destruct (freq_by_sentence_ok version _ Hne F) as (mf & _ & _ & S).
  remember (combine (seq 0 (List.length (words_of' (sent_tokenize text))))
                    (map (mean_freq version (word_freq (words_of' (sent_tokenize text))) mf)
                         (words_of' (sent_tokenize text)))) as fbs eqn:Hfbs.
  clear Hfbs.
  pose proof (freq_by_sentence_keys version _ _ S) as K.
  rewrite words_of_length in K.
  pose proof (summarize_scored version _ _ _ text k _ S) as E.
  eexists. split; [exact E|]. split; [|split].
  - apply chosen_sorted. rewrite K. apply seq_NoDup.
  - rewrite chosen_length, <- (length_map fst), K, length_seq. reflexivity.
  - intros Hall. rewrite (chosen_all _ _ _ K Hall) in *.
    split; [reflexivity|]. rewrite E, pick_all. reflexivity.
Qed.

End Selection.

(** ** Ties between sentences *)

Section Ties.

Lemma before_of_sorted_keys (l : list (nat * float)) (a b : nat * float) :
  StronglySorted lt (map fst l) ->
  In a l -> In b l -> (fst a < fst b)%nat -> before a b l.
Proof.
  induction l as [|x l IH]; simpl; intros S Ha Hb Hlt; [destruct Ha|].
  inversion S as [|? ? S' F]; subst. rewrite Forall_forall in F.
  destruct Ha as [->|Ha].
  - destruct Hb as [->|Hb]; [lia|]. apply before_head, Hb.
  - destruct Hb as [->|Hb].
    + specialize (F (fst a) (in_map fst _ _ Ha)). lia.
    + apply before_cons, IH; assumption.
Qed.

Lemma keyed_value_unique (l : list (nat * float)) (j : nat) (s s' : float) :
  NoDup (map fst l) -> In (j, s) l -> In (j, s') l -> s = s'.
Proof.
  induction l as [|x l IH]; simpl; intros N Hs Hs'; [destruct Hs|].
  inversion N as [|? ? Hnin N']; subst.
  destruct Hs as [->|Hs]; destruct Hs' as [E|Hs'].
  - congruence.
  - exfalso. apply Hnin. apply (in_map fst _ _ Hs').
  - subst x. exfalso. apply Hnin. apply (in_map fst _ _ Hs).
  - apply IH; assumption.
Qed.

Lemma In_combine_seq {B C : Type} (f : B -> C) (l : list B) (s i : nat) (w : B) :
  nth_error l i = Some w ->
  In ((s + i)%nat, f w) (combine (seq s (List.length l)) (map f l)).
Proof.
  revert s i. induction l as [|x l IH]; intros s i E.
  - destruct i; discriminate.
  - destruct i as [|i]; simpl in E.
    + injection E as ->. left. f_equal. lia.
    + right. replace (s + S i)%nat with (S s + i)%nat by lia.
      apply IH, E.
Qed.

Variable version : cpython.
Variable sent_tokenize : string -> list string.
Variable word_tokenize : string -> list string.
Variable ignored_words : list string.

Local Abbreviation words_of' := (words_of word_tokenize ignored_words).
Local Abbreviation summarize' := (summarize version sent_tokenize word_tokenize ignored_words).

Lemma earlier_wins_of_tie (text : string) (fbs : list (nat * float))
    (i j : nat) (si sj : float) :
  freq_by_sentence version (words_of' (sent_tokenize text)) = Ok fbs ->
  (i < j)%nat -> In (i, si) fbs -> In (j, sj) fbs -> tied si sj ->
  earlier_wins version sent_tokenize word_tokenize ignored_words text fbs i j.
Proof.
  intros E Hij Hi Hj Heq.
  pose proof (freq_by_sentence_keys _ _ _ E) as K.
  assert (NoDup (map fst fbs)) as N by (rewrite K; apply seq_NoDup).
  assert (before (i, si) (j, sj) fbs) as B.
  { apply before_of_sorted_keys; auto. rewrite K. apply seq_sorted_lt. }
  assert (forall k, In j (map fst (most_common k fbs)) ->
                    before (i, si) (j, sj) (most_common k fbs)) as R.
  { intros k Hk. apply in_map_iff in Hk. destruct Hk as ([j' s'] & Ej & Hk).
    simpl in Ej. subst j'.
    assert (s' = sj) as ->.
    { eapply keyed_value_unique; [exact N | | exact Hj].
      apply (most_common_In k), Hk. }
    apply most_common_stable; auto. }
  split.
  - intros k Hk.
    apply (Permutation_in _ (chosen_perm k fbs)) in Hk.
    specialize (R k Hk). split.
    + apply (Permutation_in _ (Permutation_sym (chosen_perm k fbs))).
      apply before_In in R. destruct R as [R _].
      apply (in_map fst) in R. exact R.
    + apply (before_map fst) in R. exact R.
  - pose proof (most_common_length 1 fbs) as L.
    destruct fbs as [|x fbs]; [destruct Hi|].
    destruct (most_common 1 (x :: fbs)) as [|[m sm] [|y tl]] eqn:M;
      simpl in L; try discriminate.
    exists m. split; [|split; [|split]].
    + intros ->. specialize (R 1%Z). rewrite M in R.
      destruct (R (or_introl eq_refl)) as (l1 & l2 & l3 & E').
      apply (f_equal (@List.length _)) in E'.
      rewrite length_app in E'. simpl in E'. rewrite length_app in E'.
      simpl in E'. lia.
    + assert (In m (map fst (x :: fbs))) as Hm.
      { apply (in_map fst _ (m, sm)), (most_common_In 1). rewrite M. left. reflexivity. }
      rewrite K, words_of_length in Hm. apply in_seq in Hm. lia.
    + unfold chosen. rewrite M. reflexivity.
    + rewrite (summarize_scored _ _ _ _ _ _ _ E).
      unfold chosen. rewrite M. reflexivity.
Qed.

(** C5, as amended.  When the scores exist, of two sentences [i < j] whose
    scores are equal (the doubles computed compare equal with [==]) the
    earlier one wins: for every [k], if [j] is chosen then so is [i], and
    [i] is ranked before [j]; for [k = 1] the summary is a single sentence
    of the text and it is not sentence [j] (so it is sentence [i] when the
    text has only these two).  This holds in particular for two sentences
    with the same sequence of significant tokens, whose scores are the same
    double. *)
Theorem tie_goes_to_earlier_sentence (text : string) (fbs : list (nat * float)) :
  freq_by_sentence version (words_of' (sent_tokenize text)) = Ok fbs ->
  (forall (i j : nat) (si sj : float),
      (i < j)%nat -> In (i, si) fbs -> In (j, sj) fbs ->
      (si =? sj)%float = true ->
      earlier_wins version sent_tokenize word_tokenize ignored_words text fbs i j)
  /\ (forall (i j : nat) (w : list string),
         (i < j)%nat ->
         nth_error (words_of' (sent_tokenize text)) i = Some w ->
         nth_error (words_of' (sent_tokenize text)) j = Some w ->
         earlier_wins version sent_tokenize word_tokenize ignored_words text fbs i j).
Proof.
  intros E. split.
  - intros i j si sj Hij Hi Hj Heq.
    apply (earlier_wins_of_tie text fbs i j si sj); auto. right. exact Heq.
  - intros i j w Hij Hi Hj.
    destruct (freq_by_sentence_inv _ _ _ E) as (_ & _ & mf & _ & _ & V).
    set (wf := word_freq (words_of' (sent_tokenize text))) in *.
    apply (earlier_wins_of_tie text fbs i j
             (mean_freq version wf mf w) (mean_freq version wf mf w)).
    + exact E.
    + exact Hij.
    + rewrite V. apply (In_combine_seq (mean_freq version wf mf) _ 0 i), Hi.
    + rewrite V. apply (In_combine_seq (mean_freq version wf mf) _ 0 j), Hj.
    + left. reflexivity.
Qed.

End Ties.

(** ** The code's normalisation against the specification's *)

Section Normalisation.

Lemma counter_get_le_greatest (c : counter) (k : string) :
  (counter_get c k <= spec_maxFrequency c)%Z.
Proof.
  unfold spec_maxFrequency, values.
  induction c as [|[k0 n] c IH]; simpl; [lia|].
  destruct (String.eqb k k0); lia.
Qed.

(** The value the code divides by never exceeds the greatest count. *)
Lemma max_freq_le_greatest (wf : counter) (mf : Z) :
  max_freq wf = Ok mf -> (mf <= spec_maxFrequency wf)%Z.
Proof.
  unfold max_freq, spec_maxFrequency, values, getitem.
  destruct wf as [|[k n] wf]; simpl; [discriminate|].
  intros [= <-]. lia.
Qed.

(** The specification's normalised frequency of a token of the text is in
    the interval (0, 1]. *)
Lemma spec_normalized_in_unit_interval (words : list (list string)) (t : string) :
  In t (List.concat words) ->
  (0 < spec_normalized (word_freq words) t
   /\ spec_normalized (word_freq words) t <= 1)%Q.
Proof.
  intros Ht. unfold spec_normalized.
  pose proof (counter_get_le_greatest (word_freq words) t) as L.
  assert (1 <= counter_get (word_freq words) t)%Z as C.
  { unfold word_freq. rewrite counter_get_Counter.
    apply (count_occ_In string_dec) in Ht. lia. }
  assert (0 < inject_Z (spec_maxFrequency (word_freq words)))%Q as Pm
      by (unfold Qlt; simpl; lia).
  split.
  - apply Qlt_shift_div_l; [exact Pm|]. rewrite Qmult_0_l.
    unfold Qlt. simpl. lia.
  - apply Qle_shift_div_r; [exact Pm|]. rewrite Qmult_1_l.
    rewrite <- Zle_Qle. exact L.
Qed.

(** C3 (the code departs from the claim).  On the one-sentence text
    "Dogs chase cats and more cats." the tokens are Dogs, chase, cats, cats.
    The value the code normalises by is the first value of the counter, the
    count 1 of "Dogs", while the greatest count is 2 (for "cats"); the
    normalised frequency the code computes for "cats" is 2.0, outside
    (0, 1]. *)
Theorem max_freq_is_first_count :
  Demo.tokens "Dogs chase cats and more cats." = [["Dogs"; "chase"; "cats"; "cats"]]
  /\ max_freq (word_freq (Demo.tokens "Dogs chase cats and more cats.")) = Ok 1%Z
  /\ spec_maxFrequency (word_freq (Demo.tokens "Dogs chase cats and more cats.")) = 2%Z
  /\ truediv
       (float_of_int (counter_get (word_freq (Demo.tokens "Dogs chase cats and more cats."))
                                  "cats"))
       1
     = Ok 2%float.
Proof. repeat split; evaluate. Qed.

(** C4 (the code departs from the claim).  On the three-sentence text of the
    specification's example the counter starts with "Cats" (count 2) while
    "great" has the greatest count 3: the code's scores are the doubles
    1.25, 1.0 and 0.875 (with either [sum]), the means of
    [count(t) / maxFrequency] are 5/6, 2/3 and 7/12. *)
Theorem scores_divide_by_first_count :
  (forall version : cpython,
      freq_by_sentence version
        (Demo.tokens
           "Cats are great. Dogs are great too. Cats and dogs are both great pets.")
      = Ok [(0%nat, 1.25%float); (1%nat, 1%float); (2%nat, 0.875%float)])
  /\ map (fun j => option_map Qred
                     (spec_score
                        (word_freq
                           (Demo.tokens
                              "Cats are great. Dogs are great too. Cats and dogs are both great pets."))
                        j))
         (Demo.tokens
            "Cats are great. Dogs are great too. Cats and dogs are both great pets.")
     = [Some (5 # 6)%Q; Some (2 # 3)%Q; Some (7 # 12)%Q].
Proof. split; [intros []; evaluate | evaluate]. Qed.

End Normalisation.

(** ** Determinism *)

Section Determinism.







End Determinism.

Section TwoRuns.

Variable version : cpython.
Variable order : counter -> counter.
Hypothesis order_perm : forall c, Permutation (order c) c.
Hypothesis order_first : forall c, max_freq (order c) = max_freq c.



End TwoRuns.


Lemma summarize_in_identity
    (version : cpython) (sent_tokenize word_tokenize : string -> list string)
    (ignored_words : list string) (text : string) (k : Z) :
  summarize_in version (fun c => c) (fun fbs => fbs)
               sent_tokenize word_tokenize ignored_words text k
  = summarize version sent_tokenize word_tokenize ignored_words text k.
Proof. reflexivity. Qed.

(** ** Recorded runs *)

Section Runs.

Local Abbreviation example_text :=
  "Cats are great. Dogs are great too. Cats and dogs are both great pets.".

Example run_example_top1 (version : cpython) :
  Demo.run version example_text 1 = Ok (VStr "Cats are great.").
Proof. destruct version; vm_compute; reflexivity. Qed.

Example run_example_default (version : cpython) :
  Demo.run version example_text DEFAULT_SENTENCES = Ok (VStr example_text).
Proof. destruct version; vm_compute; reflexivity. Qed.

Example run_empty_text (version : cpython) :
  Demo.run version "" DEFAULT_SENTENCES = Ok (VList []).
Proof. destruct version; vm_compute; reflexivity. Qed.

(** C7 (the code departs from the claim).  The text "and so on! Cats purr!"
    has two sentences, the first without tokens and the second scorable;
    for [k = 5] and [k = 1] the claim promises a summary of one sentence,
    and [summarize] raises [ZeroDivisionError]. *)
Theorem summarize_raises_with_a_scorable_sentence (version : cpython) :
  Demo.tokens "and so on! Cats purr!" = [[]; ["Cats"; "purr"]]
  /\ Demo.run version "and so on! Cats purr!" 5 = Raise ZeroDivisionError
  /\ Demo.run version "and so on! Cats purr!" 1 = Raise ZeroDivisionError.
Proof. destruct version; repeat split; evaluate. Qed.

(** C9 (the code departs from the claim).  With [k <= 0] the outcome
    depends on the text: [IndexError] on the one-stopword text "the",
    [ZeroDivisionError] on a text with a sentence without tokens, the empty
    string when every sentence is scorable, and the empty list when there is
    no sentence. *)
Theorem summarize_nonpositive_k_outcomes (version : cpython) :
  Demo.run version "the" 0 = Raise IndexError
  /\ Demo.run version "Cats purr! and so on." (-1) = Raise ZeroDivisionError
  /\ Demo.run version example_text 0 = Ok (VStr "")
  /\ Demo.run version example_text (-3) = Ok (VStr "")
  /\ Demo.run version "" 0 = Ok (VList []).
Proof. destruct version; repeat split; evaluate. Qed.

Lemma summarize_raises_without_tokens_witness :
  Demo.tokens "the. a, an!" = [[]; []]
  /\ Demo.run Until_3_11 "the. a, an!" 5 = Raise IndexError.
Proof.
  split; [evaluate|].
  apply (summarize_raises_without_tokens Until_3_11
           Demo.sent_tokenize Demo.word_tokenize Demo.stopwords "the. a, an!" 5).
  - vm_compute. discriminate.
  - intros s Hs. vm_compute in Hs.
    destruct Hs as [<-|[<-|[]]]; evaluate.
Defined.

Lemma summarize_divides_by_zero_witness :
  Demo.tokens "Cats purr! and so on." = [["Cats"; "purr"]; []]
  /\ Demo.run Since_3_12 "Cats purr! and so on." 5 = Raise ZeroDivisionError.
Proof.
  split; [evaluate|].
  apply (summarize_divides_by_zero Since_3_12
           Demo.sent_tokenize Demo.word_tokenize Demo.stopwords
           "Cats purr! and so on." 5 "and so on.").
  - vm_compute. right. left. reflexivity.
  - vm_compute. reflexivity.
  - vm_compute. discriminate.
Defined.

Lemma summary_keeps_text_order_witness :
  exists idxs : list nat,
    StronglySorted lt idxs
    /\ Forall (fun j => (j < List.length (Demo.sent_tokenize example_text))%nat) idxs
    /\ (VStr "Cats are great. Dogs are great too."
        = VStr (join " " (pick (Demo.sent_tokenize example_text) idxs))
        \/ VStr "Cats are great. Dogs are great too."
           = VList (pick (Demo.sent_tokenize example_text) idxs)).
Proof.
  apply (summary_keeps_text_order Until_3_11
           Demo.sent_tokenize Demo.word_tokenize Demo.stopwords example_text 2).
  vm_compute. reflexivity.
Defined.

Lemma tie_goes_to_earlier_sentence_witness :
  (Demo.run Until_3_11 "Big cats chase dogs! Big dogs chase cats!" 1
   = Ok (VStr "Big cats chase dogs!")
   /\ earlier_wins Until_3_11 Demo.sent_tokenize Demo.word_tokenize Demo.stopwords
        "Big cats chase dogs! Big dogs chase cats!"
        [(0%nat, 1%float); (1%nat, 1%float)] 0 1)
  /\ (Demo.tokens "Cats purr! Dogs bark. Cats purr!"
      = [["Cats"; "purr"]; ["Dogs"; "bark"]; ["Cats"; "purr"]]
      /\ Demo.run Since_3_12 "Cats purr! Dogs bark. Cats purr!" 2
         = Ok (VStr "Cats purr! Cats purr!")
      /\ earlier_wins Since_3_12 Demo.sent_tokenize Demo.word_tokenize Demo.stopwords
           "Cats purr! Dogs bark. Cats purr!"
           [(0%nat, 1%float); (1%nat, 0.5%float); (2%nat, 1%float)] 0 2).
Proof.
  split.
  - split; [evaluate|].
    refine (proj1 (tie_goes_to_earlier_sentence Until_3_11
                     Demo.sent_tokenize Demo.word_tokenize Demo.stopwords
                     "Big cats chase dogs! Big dogs chase cats!"
                     [(0%nat, 1%float); (1%nat, 1%float)] _)
                  0%nat 1%nat 1%float 1%float _ _ _ _).
    + vm_compute. reflexivity.
    + lia.
    + left. reflexivity.
    + right. left. reflexivity.
    + vm_compute. reflexivity.
  - split; [evaluate|]. split; [evaluate|].
    refine (proj2 (tie_goes_to_earlier_sentence Since_3_12
                     Demo.sent_tokenize Demo.word_tokenize Demo.stopwords
                     "Cats purr! Dogs bark. Cats purr!"
                     [(0%nat, 1%float); (1%nat, 0.5%float); (2%nat, 1%float)] _)
                  0%nat 2%nat ["Cats"; "purr"] _ _ _).
    + vm_compute. reflexivity.
    + lia.
    + vm_compute. reflexivity.
    + vm_compute. reflexivity.
Defined.

(** C5, as stated, fails.  The two sentences of
    "tick tock tick tock! tick tick tick tock!" have the same set of words
    and the same length, yet their scores differ (the doubles nearest to
    0.8 and 0.9, "tick" being counted 5 times and "tock" 3 times, with
    either [sum]), and for [k = 1] the later sentence is the one
    returned. *)
Lemma same_word_set_later_sentence_selected :
  Demo.tokens "tick tock tick tock! tick tick tick tock!"
  = [["tick"; "tock"; "tick"; "tock"]; ["tick"; "tick"; "tick"; "tock"]]
  /\ incl ["tick"; "tock"; "tick"; "tock"] ["tick"; "tick"; "tick"; "tock"]
  /\ incl ["tick"; "tick"; "tick"; "tock"] ["tick"; "tock"; "tick"; "tock"]
  /\ List.length ["tick"; "tock"; "tick"; "tock"]
     = List.length ["tick"; "tick"; "tick"; "tock"]
  /\ (forall version : cpython,
         freq_by_sentence version
           (Demo.tokens "tick tock tick tock! tick tick tick tock!")
         = Ok [(0%nat, 0.80000000000000004%float);
               (1%nat, 0.90000000000000002%float)])
  /\ (forall version : cpython,
         Demo.run version "tick tock tick tock! tick tick tick tock!" 1
         = Ok (VStr "tick tick tick tock!")).
Proof.
  split; [evaluate|].
  split; [intros x Hx; simpl in *; tauto|].
  split; [intros x Hx; simpl in *; tauto|].
  split; [reflexivity|].
  split; intros []; evaluate.
Qed.

(** Even two sentences made of the same words, each the same number of
    times, need not tie: up to CPython 3.11 the sums [1 + 1/3 + 1 + 1] and
    [1 + 1 + 1 + 1/3] round differently, and the later sentence is returned
    for [k = 1]; the compensated [sum] gives both the same score here. *)
Lemma same_words_other_order_may_differ :
  Demo.tokens "tick tock tick tick! tick tick tick tock!"
  = [["tick"; "tock"; "tick"; "tick"]; ["tick"; "tick"; "tick"; "tock"]]
  /\ Permutation ["tick"; "tock"; "tick"; "tick"] ["tick"; "tick"; "tick"; "tock"]
  /\ freq_by_sentence Until_3_11
       (Demo.tokens "tick tock tick tick! tick tick tick tock!")
     = Ok [(0%nat, 0.83333333333333326%float); (1%nat, 0.83333333333333337%float)]
  /\ Demo.run Until_3_11 "tick tock tick tick! tick tick tick tock!" 1
     = Ok (VStr "tick tick tick tock!")
  /\ freq_by_sentence Since_3_12
       (Demo.tokens "tick tock tick tick! tick tick tick tock!")
     = Ok [(0%nat, 0.83333333333333337%float); (1%nat, 0.83333333333333337%float)]
  /\ Demo.run Since_3_12 "tick tock tick tick! tick tick tick tock!" 1
     = Ok (VStr "tick tock tick tick!").
Proof.
  split; [evaluate|]. split; [|repeat split; evaluate].
  apply perm_skip.
  apply (perm_trans (l' := ["tick"; "tock"; "tick"])); [apply perm_swap|].
  apply perm_skip, perm_swap.
Qed.

Lemma scores_are_comparable_witness :
  Forall (fun p => is_nan (snd p) = false)
         [(0%nat, 1.25%float); (1%nat, 1%float); (2%nat, 0.875%float)]
  /\ forall a b,
      In a [(0%nat, 1.25%float); (1%nat, 1%float); (2%nat, 0.875%float)] ->
      In b [(0%nat, 1.25%float); (1%nat, 1%float); (2%nat, 0.875%float)] ->
      (snd a <? snd b)%float || (snd a =? snd b)%float || (snd b <? snd a)%float
      = true.
Proof.
  apply (scores_are_comparable Since_3_12 (Demo.tokens example_text)).
  - vm_compute. reflexivity.
  - vm_compute. reflexivity.
Defined.




End Runs.

(** ** The server profiles *)

Section DictFacts.

Context {K V : Type}.
Variable eqb : K -> K -> bool.
Hypothesis eqb_eq : forall a b, eqb a b = true <-> a = b.

Lemma eqb_refl' (a : K) : eqb a a = true.
Proof. apply eqb_eq. reflexivity. Qed.

Lemma eqb_neq' (a b : K) : a <> b -> eqb a b = false.
Proof.
  intros Hne. destruct (eqb a b) eqn:E; [|reflexivity].
  apply eqb_eq in E. contradiction.
Qed.

(** Lookup after assignment. *)
Lemma dict_find_set (d : list (K * V)) (k k' : K) (v : V) :
  Bot.dict_find eqb (Bot.dict_set eqb d k v) k'
  = if eqb k' k then Some v else Bot.dict_find eqb d k'.
Proof.
  induction d as [|[k0 v0] d IH]; simpl.
  - reflexivity.
  - destruct (eqb k k0) eqn:E; simpl.
    + apply eqb_eq in E. subst k0.
      destruct (eqb k' k); reflexivity.
    + destruct (eqb k' k0) eqn:E'.
      * apply eqb_eq in E'. subst k0.
        destruct (eqb k' k) eqn:E''; [|reflexivity].
        apply eqb_eq in E''. subst k'. rewrite eqb_refl' in E. discriminate.
      * apply IH.
Qed.

(** Assignment keeps the keys when the key is there already. *)
Lemma dict_set_keys (d : list (K * V)) (k : K) (v : V) :
  Bot.dict_contains eqb d k = true ->
  map fst (Bot.dict_set eqb d k v) = map fst d.
Proof.
  unfold Bot.dict_contains.
  induction d as [|[k0 v0] d IH]; simpl; [discriminate|].
  destruct (eqb k k0) eqn:E; simpl; [reflexivity|].
  intros H. rewrite IH by exact H. reflexivity.
Qed.

Lemma dict_find_In (d : list (K * V)) (k : K) (v : V) :
  Bot.dict_find eqb d k = Some v -> In (k, v) d.
Proof.
  induction d as [|[k0 v0] d IH]; simpl; [discriminate|].
  destruct (eqb k k0) eqn:E.
  - apply eqb_eq in E. subst k0. intros [= ->]. left. reflexivity.
  - intros H. right. apply IH, H.
Qed.

Lemma dict_find_NoDup (d : list (K * V)) (k : K) (v : V) :
  NoDup (map fst d) -> In (k, v) d -> Bot.dict_find eqb d k = Some v.
Proof.
  induction d as [|[k0 v0] d IH]; simpl; intros N Hin; [destruct Hin|].
  inversion N as [|? ? Hnin N']; subst.
  destruct Hin as [[= -> ->]|Hin].
  - rewrite eqb_refl'. reflexivity.
  - destruct (eqb k k0) eqn:E.
    + apply eqb_eq in E. subst k0. exfalso. apply Hnin.
      apply (in_map fst _ _ Hin).
    + apply IH; assumption.
Qed.

End DictFacts.

Lemma Zeqb_eq' (a b : Z) : (a =? b)%Z = true <-> a = b.
Proof. apply Z.eqb_eq. Qed.

Section ProfilesFacts.

Local Abbreviation sid_of := (fun t : Bot.table => Bot.dict_find String.eqb t "server_id").

Lemma field_find (t : Bot.table) (name : string) :
  Bot.field t name
  = match Bot.dict_find String.eqb t name with
    | Some v => Bot.Done v
    | None => Bot.Fail Bot.KeyError
    end.
Proof. reflexivity. Qed.

(** What the two comprehensions of [refresh] hold, read through lookups:
    the entry found for [sid] is the last one of the document with that
    "server_id", or what was there before. *)
Lemma build_data_find (vals : list Bot.table) (acc d : list (Z * Bot.table)) (sid : Z) :
  Bot.build_data acc vals = Bot.Done d ->
  Bot.dict_find Z.eqb d sid
  = match last_entry (map (fun t => (EmptyString, t)) vals) sid with
    | Some e => Some (snd e)
    | None => Bot.dict_find Z.eqb acc sid
    end.
Proof.
  revert acc. induction vals as [|t vals IH]; intros acc E; simpl in *.
  - injection E as <-. reflexivity.
  - unfold Bot.field, Bot.dict_get in E.
    destruct (Bot.dict_find String.eqb t "server_id") as [s|]; [|discriminate].
    simpl in E. rewrite (IH _ E).
    destruct (last_entry (map (fun t0 => (EmptyString, t0)) vals) sid); [reflexivity|].
    rewrite (dict_find_set Z.eqb Zeqb_eq'). rewrite Z.eqb_sym.
    destruct (s =? sid)%Z; reflexivity.
Qed.

Lemma build_titles_find (doc : Bot.document) (acc d : list (Z * string)) (sid : Z) :
  Bot.build_titles acc doc = Bot.Done d ->
  Bot.dict_find Z.eqb d sid
  = match last_entry doc sid with
    | Some e => Some (fst e)
    | None => Bot.dict_find Z.eqb acc sid
    end.
Proof.
  revert acc. induction doc as [|[ti t] doc IH]; intros acc E; simpl in *.
  - injection E as <-. reflexivity.
  - unfold Bot.field, Bot.dict_get in E.
    destruct (Bot.dict_find String.eqb t "server_id") as [s|]; [|discriminate].
    simpl in E. rewrite (IH _ E).
    destruct (last_entry doc sid); [reflexivity|].
    rewrite (dict_find_set Z.eqb Zeqb_eq'). rewrite Z.eqb_sym.
    destruct (s =? sid)%Z; reflexivity.
Qed.

Lemma last_entry_untitled (doc : Bot.document) (sid : Z) :
  option_map snd (last_entry (map (fun t => (EmptyString, t)) (map snd doc)) sid)
  = option_map snd (last_entry doc sid).
Proof.
  induction doc as [|[ti t] doc IH]; simpl; [reflexivity|].
  destruct (last_entry (map (fun t0 => (EmptyString, t0)) (map snd doc)) sid) as [e|];
    destruct (last_entry doc sid) as [e'|]; simpl in *; try discriminate.
  - exact IH.
  - destruct (Bot.dict_find String.eqb t "server_id") as [s|]; [|reflexivity].
    destruct (s =? sid)%Z; reflexivity.
Qed.

(** Lookups in a refreshed [ServerProfiles]. *)
Lemma refresh_find (doc : Bot.document) (p : Bot.ServerProfiles) (sid : Z) :
  Bot.refresh doc = Bot.Done p ->
  Bot.dict_find Z.eqb (Bot.data p) sid = option_map snd (last_entry doc sid)
  /\ Bot.dict_find Z.eqb (Bot.titles p) sid = option_map fst (last_entry doc sid).
Proof.
  unfold Bot.refresh. intros E.
  destruct (Bot.build_data [] (map snd doc)) as [d|] eqn:D; [|discriminate].
  destruct (Bot.build_titles [] doc) as [t|] eqn:T; [|discriminate].
  simpl in E. injection E as <-. simpl. split.
  - rewrite (build_data_find _ _ _ sid D), <- last_entry_untitled.
    destruct (last_entry _ sid); reflexivity.
  - rewrite (build_titles_find _ _ _ sid T).
    destruct (last_entry doc sid); reflexivity.
Qed.

Lemma build_data_total (vals : list Bot.table) (acc : list (Z * Bot.table)) :
  if forallb has_server_id vals
  then exists d, Bot.build_data acc vals = Bot.Done d
  else Bot.build_data acc vals = Bot.Fail Bot.KeyError.
Proof.
  revert acc. induction vals as [|t vals IH]; intros acc; simpl.
  - eauto.
  - unfold has_server_id, Bot.dict_contains, Bot.field, Bot.dict_get.
    destruct (Bot.dict_find String.eqb t "server_id") as [s|]; simpl; [|reflexivity].
    apply IH.
Qed.

Lemma build_titles_total (doc : Bot.document) (acc : list (Z * string)) :
  if forallb has_server_id (map snd doc)
  then exists d, Bot.build_titles acc doc = Bot.Done d
  else Bot.build_titles acc doc = Bot.Fail Bot.KeyError.
Proof.
  revert acc. induction doc as [|[ti t] doc IH]; intros acc; simpl.
  - eauto.
  - unfold has_server_id, Bot.dict_contains, Bot.field, Bot.dict_get.
    destruct (Bot.dict_find String.eqb t "server_id") as [s|]; simpl; [|reflexivity].
    apply IH.
Qed.

(** X3.  Building the profiles succeeds exactly when every table of the
    document has a "server_id"; a single table without one makes
    [ServerProfiles(...)] and [refresh] raise [KeyError]. *)
Theorem refresh_needs_every_server_id (doc : Bot.document) :
  if forallb has_server_id (map snd doc)
  then exists p, Bot.refresh doc = Bot.Done p
  else Bot.refresh doc = Bot.Fail Bot.KeyError.
Proof.
  unfold Bot.refresh.
  pose proof (build_data_total (map snd doc) []) as D.
  pose proof (build_titles_total doc []) as T.
  destruct (forallb has_server_id (map snd doc)).
  - destruct D as (d & ->). destruct T as (t & ->). simpl. eauto.
  - rewrite D. reflexivity.
Qed.

End ProfilesFacts.

Section ProfilesLookup.

Lemma last_entry_sound (doc : Bot.document) (sid : Z) (ti : string) (t : Bot.table) :
  last_entry doc sid = Some (ti, t) ->
  In (ti, t) doc /\ Bot.field t "server_id" = Bot.Done sid.
Proof.
  induction doc as [|[ti0 t0] doc IH]; simpl; [discriminate|].
  destruct (last_entry doc sid) as [e|].
  - intros [= ->]. destruct (IH eq_refl) as [Hin Hf]. auto.
  - unfold Bot.field, Bot.dict_get.
    destruct (Bot.dict_find String.eqb t0 "server_id") as [s|] eqn:F; [|discriminate].
    destruct (s =? sid)%Z eqn:E; [|discriminate].
    apply Z.eqb_eq in E. subst s. intros [= -> ->].
    split; [left; reflexivity|].
    rewrite F. reflexivity.
Qed.

Lemma last_entry_complete (doc : Bot.document) (sid : Z) (ti : string) (t : Bot.table) :
  In (ti, t) doc -> Bot.field t "server_id" = Bot.Done sid ->
  exists e, last_entry doc sid = Some e.
Proof.
  induction doc as [|[ti0 t0] doc IH]; simpl; intros Hin Hf; [destruct Hin|].
  destruct (last_entry doc sid) as [e|] eqn:L; [eauto|].
  destruct Hin as [[= -> ->]|Hin].
  - unfold Bot.field, Bot.dict_get in Hf.
    destruct (Bot.dict_find String.eqb t "server_id") as [s|]; [|discriminate].
    injection Hf as ->. rewrite Z.eqb_refl. eauto.
  - destruct (IH Hin Hf) as (e & E). discriminate.
Qed.

Lemma lookup_cases (doc : Bot.document) (p : Bot.ServerProfiles) (i : Z) :
  Bot.refresh doc = Bot.Done p ->
  if Bot.contains p i
  then exists ti t, last_entry doc i = Some (ti, t)
                    /\ Bot.title p i = Bot.Done ti
                    /\ Bot.getitem p i = Bot.Done t
  else last_entry doc i = None
       /\ Bot.title p i = Bot.Fail Bot.KeyError
       /\ Bot.getitem p i = Bot.Fail Bot.KeyError.
Proof.
  intros E. destruct (refresh_find doc p i E) as [D T].
  unfold Bot.contains, Bot.dict_contains, Bot.getitem, Bot.title, Bot.dict_get.
  rewrite D, T.
  destruct (last_entry doc i) as [[ti t]|]; simpl; eauto.
Qed.

(** X4.  After a refresh, a guild id is in [profiles] exactly when some
    table of the document carries it as "server_id"; [profiles[i]] and
    [profiles.title(i)] then both succeed and name the last such entry of
    the document (a later table overrides an earlier one with the same id);
    for any other id both raise [KeyError]. *)
Theorem profiles_lookup (doc : Bot.document) (p : Bot.ServerProfiles) (i : Z) :
  Bot.refresh doc = Bot.Done p ->
  (Bot.contains p i = true
   <-> exists ti t, In (ti, t) doc /\ Bot.field t "server_id" = Bot.Done i)
  /\ (if Bot.contains p i
      then exists ti t, last_entry doc i = Some (ti, t)
                        /\ Bot.title p i = Bot.Done ti
                        /\ Bot.getitem p i = Bot.Done t
      else Bot.title p i = Bot.Fail Bot.KeyError
           /\ Bot.getitem p i = Bot.Fail Bot.KeyError).
Proof.
  intros E. destruct (refresh_find doc p i E) as [D T].
  unfold Bot.contains, Bot.dict_contains, Bot.getitem, Bot.title, Bot.dict_get.
  rewrite D, T. split.
  - destruct (last_entry doc i) as [[ti t]|] eqn:L; simpl.
    + split; [intros _|reflexivity].
      exists ti, t. apply last_entry_sound, L.
    + split; [discriminate|].
      intros (ti & t & Hin & Hf).
      destruct (last_entry_complete doc i ti t Hin Hf) as (e & E'). congruence.
  - destruct (last_entry doc i) as [[ti t]|]; simpl; eauto.
Qed.

(** X5.  With distinct titles, the title kept for a guild leads back to its
    profile: [profiles_document[profiles.title(i)]] is [profiles[i]], and
    its "server_id" is [i]. *)
Theorem title_leads_to_profile (doc : Bot.document) (p : Bot.ServerProfiles) (i : Z) :
  Bot.refresh doc = Bot.Done p ->
  NoDup (map fst doc) ->
  Bot.contains p i = true ->
  exists ti t,
    Bot.title p i = Bot.Done ti
    /\ Bot.getitem p i = Bot.Done t
    /\ Bot.dict_get String.eqb doc ti = Bot.Done t
    /\ Bot.field t "server_id" = Bot.Done i.
Proof.
  intros E N C. pose proof (lookup_cases doc p i E) as L.
  rewrite C in L. destruct L as (ti & t & L & Ht & Hg).
  destruct (last_entry_sound doc i ti t L) as [Hin Hf].
  exists ti, t. repeat split; try assumption.
  unfold Bot.dict_get.
  rewrite (dict_find_NoDup String.eqb String.eqb_eq doc ti t N Hin). reflexivity.
Qed.

End ProfilesLookup.

(** ** The TL;DR command *)

Section TLDR.

Variable version : cpython.
Variable sent_tokenize : string -> list string.
Variable word_tokenize : string -> list string.
Variable ignored_words : list string.

Local Abbreviation words_of' := (words_of word_tokenize ignored_words).
Local Abbreviation summarize' := (summarize version sent_tokenize word_tokenize ignored_words).
Local Abbreviation tldr' := (Bot.tldr version sent_tokenize word_tokenize ignored_words).

Lemma summarize_by_chosen (content : string) (k : Z) :
  sent_tokenize content <> [] ->
  Forall (fun j => j <> []) (words_of' (sent_tokenize content)) ->
  exists fbs,
    map fst fbs = seq 0 (List.length (sent_tokenize content))
    /\ summarize' content k
       = Ok (VStr (join " " (pick (sent_tokenize content) (chosen k fbs)))).
Proof.
  intros Hs F.
  assert (words_of' (sent_tokenize content) <> []) as Hne.
  { intros W. apply words_of_nil in W. congruence. }
  destruct (freq_by_sentence_ok version _ Hne F) as (mf & _ & _ & S).
  remember (combine (seq 0 (List.length (words_of' (sent_tokenize content))))
                    (map (mean_freq version (word_freq (words_of' (sent_tokenize content))) mf)
                         (words_of' (sent_tokenize content)))) as fbs eqn:Hfbs.
  clear Hfbs. exists fbs. split.
  - rewrite (freq_by_sentence_keys version _ _ S), words_of_length. reflexivity.
  - apply summarize_scored, S.
Qed.

(** X1.  What "TL;DR" does with a message.  With no sentence in the content
    (an empty message) [summarize] returns a list and the concatenation
    [">>> " + summarize(...)] raises [TypeError]; with a sentence that keeps
    no token the exception of [summarize] comes through; in both cases
    nothing is sent.  Otherwise exactly one message is sent, not ephemeral,
    made of ">>> " and the summary. *)
Theorem tldr_outcome (content : string) :
  (sent_tokenize content = [] ->
   tldr' content = ([], Bot.Fail Bot.TypeError))
  /\ (In [] (words_of' (sent_tokenize content)) ->
      exists e, summarize' content DEFAULT_SENTENCES = Raise e
                /\ tldr' content = ([], Bot.Fail (Bot.Builtin e)))
  /\ (sent_tokenize content <> [] ->
      Forall (fun j => j <> []) (words_of' (sent_tokenize content)) ->
      exists s, summarize' content DEFAULT_SENTENCES = Ok (VStr s)
                /\ tldr' content = ([Bot.Send (">>> " ++ s) None false], Bot.Done tt)).
Proof.
  unfold Bot.tldr. split; [|split].
  - intros E. rewrite (summarize_no_sentence version _ _ _ _ _ E). reflexivity.
  - intros Hin.
    assert (sent_tokenize content <> []) as Hne.
    { intros E. rewrite E in Hin. destruct Hin. }
    destruct (In_nil_raises version _ Hin) as [R|R];
      rewrite (summarize_raises version _ _ _ _ _ _ Hne R); eauto.
  - intros Hne F.
    destruct (summarize_by_chosen content DEFAULT_SENTENCES Hne F) as (fbs & _ & E).
    rewrite E. eauto.
Qed.

(** X2.  A message of at most five sentences, each with a significant
    token, is not shortened: the reply is ">>> " followed by all its
    sentences joined by single spaces.  A longer one is cut to five of its
    sentences, in their order in the message. *)
Theorem tldr_keeps_short_messages (content : string) :
  sent_tokenize content <> [] ->
  Forall (fun j => j <> []) (words_of' (sent_tokenize content)) ->
  ((List.length (sent_tokenize content) <= 5)%nat ->
   tldr' content
   = ([Bot.Send (">>> " ++ join " " (sent_tokenize content)) None false], Bot.Done tt))
  /\ ((5 < List.length (sent_tokenize content))%nat ->
      exists idxs : list nat,
        List.length idxs = 5%nat /\ StronglySorted lt idxs
        /\ Forall (fun j => (j < List.length (sent_tokenize content))%nat) idxs
        /\ tldr' content
           = ([Bot.Send (">>> " ++ join " " (pick (sent_tokenize content) idxs)) None false],
              Bot.Done tt)).
Proof.
  intros Hne F.
  destruct (summarize_by_chosen content DEFAULT_SENTENCES Hne F) as (fbs & K & E).
  unfold Bot.tldr. rewrite E. split.
  - intros Hle. rewrite (chosen_all _ _ _ K), pick_all; [reflexivity|].
    unfold DEFAULT_SENTENCES. lia.
  - intros Hgt. exists (chosen DEFAULT_SENTENCES fbs).
    split; [|split; [|split; [|reflexivity]]].
    + rewrite chosen_length, <- (length_map fst), K, length_seq.
      unfold DEFAULT_SENTENCES. simpl Z.to_nat. lia.
    + apply chosen_sorted. rewrite K. apply seq_NoDup.
    + rewrite Forall_forall. intros j Hj.
      apply chosen_In in Hj. rewrite K in Hj. apply in_seq in Hj. lia.
Qed.

End TLDR.

(** ** Checks, error replies and the test command *)

Section Checks.

Local Abbreviation sorry :=
  "Sorry, an error occured. Please try again later or contact the owner for assistance."%string.

(** X6.  How a failed check is answered.  In a guild, the exception of
    [has_server_profile] draws "This command must be used in a registered
    server." and that of [is_new_server] draws "This server is already
    registered!", never the generic authorization refusal that their base
    class would draw.  In a DM both checks raise [AttributeError], and what
    [has_mod_role] and "TL;DR" may raise is no check failure either: all
    these draw the generic apology.  Every reply is one ephemeral message. *)
Theorem failed_checks_are_answered
    (profiles : Bot.ServerProfiles) (interaction : Bot.Interaction) (e : Bot.raised) :
  (Bot.has_server_profile profiles interaction = Bot.Fail e ->
   Bot.on_application_command_error e
   = ([Bot.Send (match Bot.guild interaction with
                 | Some _ => "This command must be used in a registered server."%string
                 | None => sorry
                 end) None true], Bot.Done tt))
  /\ (Bot.is_new_server profiles interaction = Bot.Fail e ->
      Bot.on_application_command_error e
      = ([Bot.Send (match Bot.guild interaction with
                    | Some _ => "This server is already registered!"%string
                    | None => sorry
                    end) None true], Bot.Done tt))
  /\ (Bot.has_mod_role profiles interaction = Bot.Fail e ->
      Bot.on_application_command_error e = ([Bot.Send sorry None true], Bot.Done tt))
  /\ (forall version st wt iw content tr,
         Bot.tldr version st wt iw content = (tr, Bot.Fail e) ->
         Bot.on_application_command_error e = ([Bot.Send sorry None true], Bot.Done tt)).
Proof.
  unfold Bot.has_server_profile, Bot.is_new_server, Bot.has_mod_role,
    Bot.interaction_guild_id, Bot.roles_of, Bot.getitem, Bot.field, Bot.dict_get.
  repeat split.
  - destruct (Bot.guild interaction) as [g|]; simpl.
    + destruct (Bot.contains profiles (Bot.guild_id g)); [discriminate|].
      intros [= <-]. reflexivity.
    + intros [= <-]. reflexivity.
  - destruct (Bot.guild interaction) as [g|]; simpl.
    + destruct (Bot.contains profiles (Bot.guild_id g)); simpl; [|discriminate].
      intros [= <-]. reflexivity.
    + intros [= <-]. reflexivity.
  - destruct (Bot.user_roles (Bot.user interaction)) as [rs|]; simpl;
      [|intros [= <-]; reflexivity].
    destruct (Bot.guild interaction) as [g|]; simpl; [|intros [= <-]; reflexivity].
    destruct (Bot.dict_find Z.eqb (Bot.data profiles) (Bot.guild_id g)) as [p|]; simpl;
      [|intros [= <-]; reflexivity].
    destruct (Bot.dict_find String.eqb p "moderator_role") as [m|]; simpl;
      [discriminate | intros [= <-]; reflexivity].
  - intros version st wt iw content tr. unfold Bot.tldr.
    destruct (summarize version st wt iw content DEFAULT_SENTENCES) as [[s|l]|e'];
      unfold Bot.emit, Bot.lift; intros [= _ <-] || discriminate; reflexivity.
Qed.

(** X7.  The debug report of the test command.  It never raises in a DM or
    in an unregistered guild, where the user's roles and the profile are not
    even read; "guild" tells whether there is a guild, "registered" is
    reported only in a guild and "mod" only in a registered one. *)
Theorem test_debug_report
    (is_owner : bool) (profiles : Bot.ServerProfiles) (interaction : Bot.Interaction) :
  (Bot.guild interaction = None ->
   Bot.test is_owner profiles interaction true
   = ([Bot.Send "Test received!"
                (Some (Bot.json_dumps [("owner"%string, is_owner); ("guild"%string, false)]))
                true], Bot.Done tt))
  /\ (forall g, Bot.guild interaction = Some g ->
                Bot.contains profiles (Bot.guild_id g) = false ->
                Bot.test is_owner profiles interaction true
                = ([Bot.Send "Test received!"
                             (Some (Bot.json_dumps [("owner"%string, is_owner);
                                                    ("guild"%string, true);
                                                    ("registered"%string, false)]))
                             true], Bot.Done tt))
  /\ (forall info, Bot.debug_info is_owner profiles interaction = Bot.Done info ->
                   Bot.dict_find String.eqb info "owner" = Some is_owner
                   /\ Bot.dict_find String.eqb info "guild"
                      = Some (Bot.is_some (Bot.guild interaction))
                   /\ (Bot.dict_contains String.eqb info "registered"
                       = Bot.is_some (Bot.guild interaction))
                   /\ (Bot.dict_contains String.eqb info "mod" = true
                       <-> Bot.dict_find String.eqb info "registered" = Some true))
  /\ (Bot.test is_owner profiles interaction false
      = ([Bot.Send "Test received!" None true], Bot.Done tt)).
Proof.
  split; [|split; [|split]].
  - intros E. unfold Bot.test, Bot.debug_info. rewrite E. reflexivity.
  - intros g E C. unfold Bot.test, Bot.debug_info. rewrite E, C. reflexivity.
  - intros info. unfold Bot.debug_info.
    destruct (Bot.guild interaction) as [g|]; simpl.
    + destruct (Bot.contains profiles (Bot.guild_id g)); simpl.
      * destruct (Bot.roles_of (Bot.user interaction)) as [rs|]; simpl; [|discriminate].
        destruct (Bot.getitem profiles (Bot.guild_id g)) as [p|]; simpl; [|discriminate].
        destruct (Bot.field p "moderator_role") as [m|]; simpl; [|discriminate].
        intros [= <-]. repeat split; reflexivity.
      * intros [= <-]. repeat split; try reflexivity; intros H; discriminate H.
    + intros [= <-]. repeat split; try reflexivity; intros H; discriminate H.
  - reflexivity.
Qed.

End Checks.

(** ** Leftover admin roles *)

Section Cleanup.

Lemma substring_all (s : string) : substring 0 (String.length s) s = s.
Proof. induction s as [|c s IH]; simpl; [reflexivity | rewrite IH; reflexivity]. Qed.

Lemma prefix_nil (s : string) : String.prefix EmptyString s = true.
Proof. destruct s; reflexivity. Qed.

(** The name given by [on_member_join] starts with "Admin 0x", and what
    follows is the guid. *)
Lemma admin_name_parts (guid : string) :
  String.prefix "Admin 0x" ("Admin 0x" ++ guid) = true
  /\ Bot.drop (String.length "Admin 0x") ("Admin 0x" ++ guid) = guid.
Proof.
  split.
  - simpl. apply prefix_nil.
  - unfold Bot.drop. simpl. rewrite Nat.sub_0_r. apply substring_all.
Qed.

Lemma cleanup_loop_spec (top : Z) (roles : list Bot.Role) (n : Z) :
  Bot.cleanup_loop top roles n
  = (map Bot.DeleteRole (filter (Bot.leftover top) roles),
     Bot.Done (n + Z.of_nat (List.length (filter (Bot.leftover top) roles)))%Z).
Proof.
  revert n. induction roles as [|i roles IH]; intros n; simpl.
  - unfold Bot.lift. rewrite Z.add_0_r. reflexivity.
  - destruct (Bot.leftover top i); simpl.
    + rewrite IH. simpl. do 2 f_equal. lia.
    + apply IH.
Qed.

Lemma fold_max_ge (l : list Z) (x : Z) :
  (x <= fold_left Z.max l x)%Z
  /\ Forall (fun y => (y <= fold_left Z.max l x)%Z) l.
Proof.
  revert x. induction l as [|y l IH]; intros x; simpl.
  - split; [lia | constructor].
  - destruct (IH (Z.max x y)) as [H1 H2]. split; [lia|].
    constructor; [lia | exact H2].
Qed.

(** X8.  [cleanup] deletes, in guild order, exactly the roles of the guild
    that pass the four tests of the loop, and reports how many they are.
    Nothing at or above the bot's highest role is deleted, so none of the
    roles at that position, and in particular not the bot's highest role. *)
Theorem cleanup_deletes_leftovers
    (interaction : Bot.Interaction) (g : Bot.Guild) (top : Z) :
  Bot.guild interaction = Some g ->
  Bot.bot_max_position g = Bot.Done top ->
  Bot.cleanup interaction
  = ((map Bot.DeleteRole (filter (Bot.leftover top) (Bot.guild_roles g))
      ++ [Bot.Send ("Deleted "
                    ++ Bot.str_int (Z.of_nat (List.length
                                                (filter (Bot.leftover top) (Bot.guild_roles g))))
                    ++ " leftover roles.") None true])%list,
     Bot.Done tt)
  /\ (forall r, In (Bot.DeleteRole r) (fst (Bot.cleanup interaction)) ->
                In r (Bot.guild_roles g)
                /\ (Bot.role_position r < top)%Z
                /\ Bot.role_permissions r = 8%Z
                /\ String.prefix "Admin 0x" (Bot.role_name r) = true)
  /\ (forall me rs r, Bot.guild_me g = Some me -> Bot.user_roles me = Some rs ->
                      In r rs -> (Bot.role_position r <= top)%Z).
Proof.
  intros G T.
  assert (Bot.cleanup interaction
          = ((map Bot.DeleteRole (filter (Bot.leftover top) (Bot.guild_roles g))
              ++ [Bot.Send ("Deleted "
                            ++ Bot.str_int (Z.of_nat (List.length
                                 (filter (Bot.leftover top) (Bot.guild_roles g))))
                            ++ " leftover roles.") None true])%list,
             Bot.Done tt)) as E.
  { unfold Bot.cleanup. rewrite G, T. unfold Bot.lift. cbn [Bot.cbind app].
    rewrite cleanup_loop_spec. reflexivity. }
  split; [exact E|]. split.
  - intros r Hr. rewrite E in Hr. simpl in Hr.
    apply in_app_or in Hr. destruct Hr as [Hr|[Hr|[]]]; [|discriminate].
    apply in_map_iff in Hr. destruct Hr as (r' & [= ->] & Hf).
    apply filter_In in Hf. destruct Hf as [Hin L].
    unfold Bot.leftover in L.
    apply andb_prop in L. destruct L as [L Hpos].
    apply andb_prop in L. destruct L as [L Hperm].
    apply andb_prop in L. destruct L as [Hpre _].
    apply Z.ltb_lt in Hpos. apply Z.eqb_eq in Hperm. auto.
  - intros me rs r M R Hin. unfold Bot.bot_max_position in T.
    rewrite M in T. unfold Bot.roles_of in T. rewrite R in T. simpl in T.
    unfold Bot.py_max in T.
    destruct (map Bot.role_position rs) as [|x l] eqn:P; [discriminate|].
    injection T as <-.
    apply (in_map Bot.role_position) in Hin. rewrite P in Hin.
    destruct (fold_max_ge l x) as [H1 H2]. rewrite Forall_forall in H2.
    destruct Hin as [<-|Hin]; [exact H1 | apply H2, Hin].
Qed.

(** X9.  The role [on_member_join] makes for the owner is one that
    [cleanup] collects: when the handler completes for the owner in a
    registered guild, it has asked for a role named "Admin 0x" followed by
    the guid, with permissions 8, placed just below the bot's highest role;
    the guid being made of hexadecimal digits, any role with that name,
    those permissions and that position passes the tests of [cleanup]. *)
Theorem owner_role_is_a_leftover
    (profiles : Bot.ServerProfiles) (channels : list Z) (g : Bot.Guild)
    (member : Bot.User) (guid : string) (tr : list Bot.action) :
  Bot.contains profiles (Bot.guild_id g) = true ->
  Bot.all_hexdigits guid = true ->
  Bot.on_member_join profiles channels g member true guid = (tr, Bot.Done tt) ->
  exists top,
    Bot.bot_max_position g = Bot.Done top
    /\ In (Bot.CreateRole ("Admin 0x" ++ guid) 8) tr
    /\ In (Bot.EditPosition ("Admin 0x" ++ guid) (top - 1)) tr
    /\ forall r, Bot.role_name r = ("Admin 0x" ++ guid)%string ->
                 Bot.role_permissions r = 8%Z ->
                 Bot.role_position r = (top - 1)%Z ->
                 Bot.leftover top r = true.
Proof.
  intros C H E. unfold Bot.on_member_join in E. rewrite C in E. simpl in E.
  unfold Bot.lift, Bot.emit in E.
  destruct (Bot.wait_channel profiles channels (Bot.guild_id g)) as [w|];
    cbn [Bot.cbind] in E; [|discriminate].
  destruct (Bot.getitem profiles (Bot.guild_id g)) as [p|];
    cbn [Bot.cbind] in E; [|discriminate].
  destruct (Bot.field p "moderator_role") as [m|]; cbn [Bot.cbind] in E; [|discriminate].
  destruct (Bot.bot_max_position g) as [top|]; cbn [Bot.cbind app] in E; [|discriminate].
  injection E as <-. exists top. split; [reflexivity|].
  split; [simpl; tauto|]. split; [simpl; tauto|].
  intros r Hn Hp Hpos. unfold Bot.leftover.
  destruct (admin_name_parts guid) as [P D].
  rewrite Hn, P, D, H, Hp, Hpos. simpl.
  apply Z.ltb_lt. lia.
Qed.

End Cleanup.

Section MemberJoin.

(** X10.  What [on_member_join] asks for.  In a guild without profile it
    asks for nothing and returns.  A greeting only ever goes to the channel
    the guild's profile names as "wait_channel", which the bot must know.
    A role is only ever created when the member is the bot's owner, with the
    name "Admin 0x" followed by the guid and permissions 8, and only after
    both greetings went out. *)
Theorem member_join_requests
    (profiles : Bot.ServerProfiles) (channels : list Z) (g : Bot.Guild)
    (member : Bot.User) (is_owner : bool) (guid : string) :
  (Bot.contains profiles (Bot.guild_id g) = false ->
   Bot.on_member_join profiles channels g member is_owner guid = ([], Bot.Done tt))
  /\ (forall c msg,
         In (Bot.ChannelSend c msg)
            (fst (Bot.on_member_join profiles channels g member is_owner guid)) ->
         In c channels
         /\ exists p, Bot.getitem profiles (Bot.guild_id g) = Bot.Done p
                      /\ Bot.field p "wait_channel" = Bot.Done c)
  /\ (forall name perm,
         In (Bot.CreateRole name perm)
            (fst (Bot.on_member_join profiles channels g member is_owner guid)) ->
         is_owner = true /\ name = ("Admin 0x" ++ guid)%string /\ perm = 8%Z
         /\ exists c m rest,
             fst (Bot.on_member_join profiles channels g member is_owner guid)
             = Bot.ChannelSend c ("<@&" ++ Bot.str_int m ++ ">, look who just showed up:")
               :: Bot.ChannelSend c ("Hey, " ++ Bot.user_mention member ++ ", glad you're here!")
               :: Bot.CreateRole name perm :: rest).
Proof.
  unfold Bot.on_member_join, Bot.wait_channel, Bot.get_channel.
  split; [intros ->; reflexivity|].
  destruct (Bot.contains profiles (Bot.guild_id g));
    [|split; intros ? ? []]. simpl negb. cbv iota.
  destruct (Bot.getitem profiles (Bot.guild_id g)) as [p|];
    [|split; intros ? ? []]. cbn [Bot.obind].
  destruct (Bot.field p "wait_channel") as [w|] eqn:W;
    [|split; intros ? ? []]. cbn [Bot.obind].
  destruct (existsb (Z.eqb w) channels) eqn:K; [|split; intros ? ? []].
  assert (In w channels) as Hw.
  { apply existsb_exists in K. destruct K as (x & Hx & E).
    apply Z.eqb_eq in E. subst x. exact Hx. }
  unfold Bot.lift, Bot.emit. cbn [Bot.cbind].
  destruct (Bot.field p "moderator_role") as [m|];
    [|split; intros ? ? []]. cbn [Bot.cbind app].
  destruct is_owner; cbn [Bot.cbind app].
  - destruct (Bot.bot_max_position g) as [top|]; cbn [Bot.cbind app fst].
    + split.
      * intros c msg [[= <- _]|[[= <- _]|[H|[H|[H|[]]]]]]; try discriminate; eauto.
      * intros name perm [H|[H|[[= <- <-]|[H|[H|[]]]]]]; try discriminate.
        repeat split. eauto.
    + split.
      * intros c msg [[= <- _]|[[= <- _]|[H|[]]]]; try discriminate; eauto.
      * intros name perm [H|[H|[[= <- <-]|[]]]]; try discriminate.
        repeat split. eauto.
  - cbn [fst]. split.
    + intros c msg [[= <- _]|[[= <- _]|[]]]; eauto.
    + intros name perm [H|[H|[]]]; discriminate.
Qed.

End MemberJoin.

(** ** Creating and updating a profile *)

Section ProfileStore.

Lemma refresh_defined (doc : Bot.document) :
  forallb has_server_id (map snd doc) = true ->
  exists p, Bot.refresh doc = Bot.Done p.
Proof.
  intros H. unfold Bot.refresh.
  pose proof (build_data_total (map snd doc) []) as D.
  pose proof (build_titles_total doc []) as T.
  rewrite H in D, T. destruct D as (d & ->). destruct T as (t & ->).
  simpl. eauto.
Qed.

Lemma refresh_all_ids (doc : Bot.document) (p : Bot.ServerProfiles) :
  Bot.refresh doc = Bot.Done p -> forallb has_server_id (map snd doc) = true.
Proof.
  intros E. unfold Bot.refresh in E.
  pose proof (build_data_total (map snd doc) []) as D.
  destruct (forallb has_server_id (map snd doc)); [reflexivity|].
  rewrite D in E. discriminate.
Qed.

Lemma last_entry_app (doc : Bot.document) (ti : string) (t : Bot.table) (sid i : Z) :
  Bot.dict_find String.eqb t "server_id" = Some sid ->
  last_entry (doc ++ [(ti, t)]) i
  = if (sid =? i)%Z then Some (ti, t) else last_entry doc i.
Proof.
  intros F. induction doc as [|[ti0 t0] doc IH]; simpl.
  - rewrite F. destruct (sid =? i)%Z; reflexivity.
  - rewrite IH. destruct (sid =? i)%Z; reflexivity.
Qed.

Lemma not_contains_not_In (doc : Bot.document) (ti : string) :
  Bot.dict_contains String.eqb doc ti = false -> ~ In ti (map fst doc).
Proof.
  unfold Bot.dict_contains.
  induction doc as [|[ti0 t0] doc IH]; simpl; intros H; [tauto|].
  destruct (String.eqb ti ti0) eqn:E; [discriminate|].
  apply String.eqb_neq in E. intros [E'|Hin]; [congruence|].
  apply IH; assumption.
Qed.

(** Lookups of a guild id: which entry of the document answers. *)
Lemma lookup_by_entry (doc : Bot.document) (p : Bot.ServerProfiles) (i : Z) :
  Bot.refresh doc = Bot.Done p ->
  Bot.getitem p i = match last_entry doc i with
                    | Some e => Bot.Done (snd e)
                    | None => Bot.Fail Bot.KeyError
                    end
  /\ Bot.title p i = match last_entry doc i with
                     | Some e => Bot.Done (fst e)
                     | None => Bot.Fail Bot.KeyError
                     end
  /\ Bot.contains p i = match last_entry doc i with
                        | Some _ => true
                        | None => false
                        end.
Proof.
  intros E. destruct (refresh_find doc p i E) as [D T].
  unfold Bot.getitem, Bot.title, Bot.contains, Bot.dict_get, Bot.dict_contains.
  rewrite D, T. destruct (last_entry doc i); auto.
Qed.

(** X11.  [profile init] registers the guild.  From globals that agree,
    with a fresh title, it appends one table to the document, writes the
    file, refreshes and answers "Created server profile.".  Afterwards the
    globals agree again, [has_server_profile] passes and [is_new_server]
    raises for this guild (the command cannot be run twice), the guild's
    profile is the table just written, under the new title, and the profile
    of every other guild is what it was. *)
Theorem init_registers_guild
    (s : Bot.Store) (interaction : Bot.Interaction) (g : Bot.Guild)
    (new_title : string) (mod_ member laws wait : Z) :
  consistent s ->
  Bot.guild interaction = Some g ->
  Bot.dict_contains String.eqb (Bot.profiles_document s) new_title = false ->
  exists s',
    Bot.init s interaction new_title mod_ member laws wait
    = (s', ([Bot.Dump (Bot.profiles_document s');
             Bot.Send "Created server profile." None true], Bot.Done tt))
    /\ Bot.profiles_document s'
       = (Bot.profiles_document s
          ++ [(new_title,
               [("server_id"%string, Bot.guild_id g); ("moderator_role"%string, mod_);
                ("member_role"%string, member); ("laws_channel"%string, laws);
                ("wait_channel"%string, wait)])])%list
    /\ consistent s'
    /\ Bot.has_server_profile (Bot.profiles s') interaction = Bot.Done true
    /\ Bot.is_new_server (Bot.profiles s') interaction
       = Bot.Fail Bot.ApplicationServerAlreadyRegistered
    /\ Bot.title (Bot.profiles s') (Bot.guild_id g) = Bot.Done new_title
    /\ Bot.getitem (Bot.profiles s') (Bot.guild_id g)
       = Bot.Done [("server_id"%string, Bot.guild_id g); ("moderator_role"%string, mod_);
                   ("member_role"%string, member); ("laws_channel"%string, laws);
                   ("wait_channel"%string, wait)]
    /\ forall i, i <> Bot.guild_id g ->
                 Bot.getitem (Bot.profiles s') i = Bot.getitem (Bot.profiles s) i
                 /\ Bot.contains (Bot.profiles s') i = Bot.contains (Bot.profiles s) i.
Proof.
  intros [N R] G Fresh.
  set (t := [("server_id"%string, Bot.guild_id g); ("moderator_role"%string, mod_);
             ("member_role"%string, member); ("laws_channel"%string, laws);
             ("wait_channel"%string, wait)]).
  set (doc := (Bot.profiles_document s ++ [(new_title, t)])%list).
  assert (exists p, Bot.refresh doc = Bot.Done p) as (p & P).
  { apply refresh_defined. unfold doc. rewrite map_app, forallb_app.
    rewrite (refresh_all_ids _ _ R). reflexivity. }
  assert (forall i, last_entry doc i
                    = if (Bot.guild_id g =? i)%Z then Some (new_title, t)
                      else last_entry (Bot.profiles_document s) i) as L.
  { intros i. apply last_entry_app. reflexivity. }
  exists {| Bot.profiles_document := doc; Bot.profiles := p |}.
  split; [|split; [reflexivity|split; [|split; [|split; [|split; [|split]]]]]].
  - unfold Bot.init, Bot.interaction_guild_id, Bot.document_add.
    rewrite G, Fresh. cbn [Bot.obind].
    match goal with |- context [Bot.refresh ?d] => change d with doc end.
    rewrite P. reflexivity.
  - split; [|exact P]. simpl. unfold doc. rewrite map_app. simpl.
    apply NoDup_app; [exact N | repeat constructor; simpl; tauto|].
    intros a Ha [<-|[]]. apply (not_contains_not_In _ _ Fresh), Ha.
  - unfold Bot.has_server_profile, Bot.interaction_guild_id. rewrite G. simpl.
    destruct (lookup_by_entry doc p (Bot.guild_id g) P) as (_ & _ & ->).
    rewrite L, Z.eqb_refl. reflexivity.
  - unfold Bot.is_new_server, Bot.interaction_guild_id. rewrite G. simpl.
    destruct (lookup_by_entry doc p (Bot.guild_id g) P) as (_ & _ & ->).
    rewrite L, Z.eqb_refl. reflexivity.
  - simpl. destruct (lookup_by_entry doc p (Bot.guild_id g) P) as (_ & -> & _).
    rewrite L, Z.eqb_refl. reflexivity.
  - simpl. destruct (lookup_by_entry doc p (Bot.guild_id g) P) as (-> & _ & _).
    rewrite L, Z.eqb_refl. reflexivity.
  - intros i Hi. simpl.
    destruct (lookup_by_entry doc p i P) as (-> & _ & ->).
    destruct (lookup_by_entry _ _ i R) as (-> & _ & ->).
    rewrite L. destruct (Bot.guild_id g =? i)%Z eqn:E; [|auto].
    apply Z.eqb_eq in E. congruence.
Qed.

Lemma last_entry_set (doc : Bot.document) (gid : Z) (ti : string) (t t' : Bot.table) :
  NoDup (map fst doc) ->
  last_entry doc gid = Some (ti, t) ->
  Bot.dict_find String.eqb t' "server_id" = Bot.dict_find String.eqb t "server_id" ->
  forall i, last_entry (Bot.dict_set String.eqb doc ti t') i
            = if (i =? gid)%Z then Some (ti, t') else last_entry doc i.
Proof.
  intros N L S i. revert N L.
  induction doc as [|[ti0 t0] doc IH]; simpl; intros N L; [discriminate|].
  inversion N as [|? ? Hnin N']; subst.
  destruct (String.eqb ti ti0) eqn:E.
  - apply String.eqb_eq in E. subst ti0.
    destruct (last_entry doc gid) as [e|] eqn:Lr.
    { injection L as ->. apply last_entry_sound in Lr.
      destruct Lr as [Hin _]. exfalso. apply Hnin, (in_map fst _ _ Hin). }
    destruct (Bot.dict_find String.eqb t0 "server_id") as [s0|] eqn:F; [|discriminate].
    destruct (s0 =? gid)%Z eqn:Eg; [|discriminate].
    apply Z.eqb_eq in Eg. subst s0. injection L as <-.
    simpl. rewrite S, F.
    destruct (i =? gid)%Z eqn:Ei.
    + apply Z.eqb_eq in Ei. subst i. rewrite Lr, Z.eqb_refl. reflexivity.
    + destruct (last_entry doc i); [reflexivity|].
      rewrite Z.eqb_sym, Ei. reflexivity.
  - simpl.
    destruct (last_entry doc gid) as [e|] eqn:Lr.
    + injection L as ->. rewrite (IH N' eq_refl).
      destruct (i =? gid)%Z; reflexivity.
    + exfalso.
      destruct (Bot.dict_find String.eqb t0 "server_id") as [s0|]; [|discriminate].
      destruct (s0 =? gid)%Z; [|discriminate].
      injection L as -> _. rewrite String.eqb_refl in E. discriminate.
Qed.

Lemma forallb_set (doc : Bot.document) (ti : string) (t' : Bot.table) :
  has_server_id t' = true ->
  forallb has_server_id (map snd doc) = true ->
  forallb has_server_id (map snd (Bot.dict_set String.eqb doc ti t')) = true.
Proof.
  intros H. induction doc as [|[ti0 t0] doc IH]; simpl; intros F.
  - rewrite H. reflexivity.
  - apply andb_prop in F. destruct F as [F0 F].
    destruct (String.eqb ti ti0); simpl.
    + rewrite H, F. reflexivity.
    + rewrite F0, (IH F). reflexivity.
Qed.

Lemma tracks_find (doc0 doc : Bot.document) (gid : Z) (ti : string) (t : Bot.table) :
  tracks doc0 doc gid ti t ->
  Bot.dict_find String.eqb doc ti = Some t
  /\ Bot.dict_find String.eqb t "server_id" = Some gid.
Proof.
  intros (N & _ & L & _). destruct (last_entry_sound _ _ _ _ L) as [Hin Hf].
  split.
  - apply (dict_find_NoDup String.eqb String.eqb_eq); assumption.
  - unfold Bot.field, Bot.dict_get in Hf.
    destruct (Bot.dict_find String.eqb t "server_id"); congruence.
Qed.

(** One guarded assignment, in a registered guild. *)
Lemma assign_step (p : Bot.ServerProfiles) (interaction : Bot.Interaction)
    (g : Bot.Guild) (doc0 doc : Bot.document) (ti : string) (t : Bot.table)
    (name : string) (v : option Z) :
  Bot.guild interaction = Some g ->
  Bot.title p (Bot.guild_id g) = Bot.Done ti ->
  String.eqb "server_id" name = false ->
  tracks doc0 doc (Bot.guild_id g) ti t ->
  exists doc',
    Bot.assign p interaction name v doc = (doc', Bot.Done tt)
    /\ tracks doc0 doc' (Bot.guild_id g) ti (with_field t name v)
    /\ (v = None -> doc' = doc).
Proof.
  intros G T Hn Tr. destruct v as [id|]; simpl.
  - destruct (tracks_find _ _ _ _ _ Tr) as [Fd Fs].
    assert (Bot.dict_find String.eqb (Bot.dict_set String.eqb t name id) "server_id"
            = Bot.dict_find String.eqb t "server_id") as S.
    { rewrite (dict_find_set String.eqb String.eqb_eq), Hn. reflexivity. }
    exists (Bot.dict_set String.eqb doc ti (Bot.dict_set String.eqb t name id)).
    split; [|split; [|discriminate]].
    + unfold Bot.interaction_guild_id. rewrite G. cbn [Bot.obind]. rewrite T.
      cbn [Bot.obind]. unfold Bot.set_field. rewrite Fd. reflexivity.
    + destruct Tr as (N & F & L & O). split; [|split; [|split]].
      * rewrite (dict_set_keys String.eqb); [exact N|].
        unfold Bot.dict_contains. rewrite Fd. reflexivity.
      * apply forallb_set; [|exact F].
        unfold has_server_id, Bot.dict_contains. rewrite S, Fs. reflexivity.
      * rewrite (last_entry_set doc _ ti t _ N L S), Z.eqb_refl. reflexivity.
      * intros i Hi. rewrite (last_entry_set doc _ ti t _ N L S).
        destruct (i =? Bot.guild_id g)%Z eqn:E; [|apply O, Hi].
        apply Z.eqb_eq in E. contradiction.
  - exists doc. auto.
Qed.

(** In a registered guild all four assignments go through. *)
Lemma assign_all_ok (p : Bot.ServerProfiles) (interaction : Bot.Interaction)
    (g : Bot.Guild) (doc : Bot.document) (ti : string) (t : Bot.table)
    (mod_ member laws wait : option Z) :
  Bot.guild interaction = Some g ->
  Bot.title p (Bot.guild_id g) = Bot.Done ti ->
  tracks doc doc (Bot.guild_id g) ti t ->
  exists doc',
    Bot.assign_all p interaction mod_ member laws wait doc = (doc', Bot.Done tt)
    /\ tracks doc doc' (Bot.guild_id g) ti (updated t mod_ member laws wait)
    /\ (mod_ = None -> member = None -> laws = None -> wait = None -> doc' = doc).
Proof.
  intros G T Tr. unfold Bot.assign_all, updated.
  destruct (assign_step p interaction g doc doc ti t "moderator_role" mod_ G T eq_refl Tr)
    as (d1 & -> & Tr1 & E1).
  destruct (assign_step p interaction g doc d1 ti _ "member_role" member G T eq_refl Tr1)
    as (d2 & -> & Tr2 & E2).
  destruct (assign_step p interaction g doc d2 ti _ "laws_channel" laws G T eq_refl Tr2)
    as (d3 & -> & Tr3 & E3).
  destruct (assign_step p interaction g doc d3 ti _ "wait_channel" wait G T eq_refl Tr3)
    as (d4 & -> & Tr4 & E4).
  exists d4. split; [reflexivity|]. split; [exact Tr4|].
  intros H1 H2 H3 H4. rewrite (E4 H4), (E3 H3), (E2 H2), (E1 H1). reflexivity.
Qed.

Lemma consistent_tracks (s : Bot.Store) (i : Z) (t : Bot.table) :
  consistent s ->
  Bot.getitem (Bot.profiles s) i = Bot.Done t ->
  exists ti, Bot.title (Bot.profiles s) i = Bot.Done ti
             /\ tracks (Bot.profiles_document s) (Bot.profiles_document s) i ti t.
Proof.
  intros [N R] Gt.
  destruct (lookup_by_entry _ _ i R) as (Hg & Ht & _).
  rewrite Hg in Gt.
  destruct (last_entry (Bot.profiles_document s) i) as [[ti t']|] eqn:L; [|discriminate].
  simpl in Gt. injection Gt as ->.
  exists ti. split; [exact Ht|].
  split; [exact N|]. split; [exact (refresh_all_ids _ _ R)|]. split; [exact L|].
  reflexivity.
Qed.

Lemma update_registered (s : Bot.Store) (interaction : Bot.Interaction)
    (g : Bot.Guild) (t : Bot.table) (mod_ member laws wait : option Z) :
  consistent s ->
  Bot.guild interaction = Some g ->
  Bot.getitem (Bot.profiles s) (Bot.guild_id g) = Bot.Done t ->
  exists doc' ti p',
    Bot.assign_all (Bot.profiles s) interaction mod_ member laws wait
                   (Bot.profiles_document s) = (doc', Bot.Done tt)
    /\ Bot.title (Bot.profiles s) (Bot.guild_id g) = Bot.Done ti
    /\ tracks (Bot.profiles_document s) doc' (Bot.guild_id g) ti
              (updated t mod_ member laws wait)
    /\ Bot.refresh doc' = Bot.Done p'
    /\ (mod_ = None -> member = None -> laws = None -> wait = None ->
        doc' = Bot.profiles_document s).
Proof.
  intros C G Gt.
  destruct (consistent_tracks s _ t C Gt) as (ti & T & Tr).
  destruct (assign_all_ok _ interaction g _ ti t mod_ member laws wait G T Tr)
    as (doc' & E & Tr' & En).
  destruct (refresh_defined doc') as (p' & P); [apply Tr'|].
  exists doc', ti, p'. auto.
Qed.

(** X12.  [profile update] in a registered guild, from globals that agree.
    It always answers "Updated server profile.".  The guild's profile gets
    exactly the ids given, keeps every other field and its "server_id", and
    stays under the same title; the profiles of the other guilds are
    untouched; the globals agree again afterwards.  The file is written
    exactly when some option is given; with none, nothing changes. *)
Theorem update_sets_given_fields
    (s : Bot.Store) (interaction : Bot.Interaction) (g : Bot.Guild) (t : Bot.table)
    (mod_ member laws wait : option Z) :
  consistent s ->
  Bot.guild interaction = Some g ->
  Bot.getitem (Bot.profiles s) (Bot.guild_id g) = Bot.Done t ->
  exists s',
    Bot.update s interaction mod_ member laws wait
    = (s', ((if Bot.is_some mod_ || Bot.is_some member || Bot.is_some laws
                || Bot.is_some wait
             then [Bot.Dump (Bot.profiles_document s')] else [])
            ++ [Bot.Send "Updated server profile." None true], Bot.Done tt))%list
    /\ consistent s'
    /\ Bot.getitem (Bot.profiles s') (Bot.guild_id g)
       = Bot.Done (updated t mod_ member laws wait)
    /\ Bot.field (updated t mod_ member laws wait) "server_id" = Bot.Done (Bot.guild_id g)
    /\ Bot.title (Bot.profiles s') (Bot.guild_id g)
       = Bot.title (Bot.profiles s) (Bot.guild_id g)
    /\ (forall i, i <> Bot.guild_id g ->
                  Bot.getitem (Bot.profiles s') i = Bot.getitem (Bot.profiles s) i
                  /\ Bot.contains (Bot.profiles s') i = Bot.contains (Bot.profiles s) i)
    /\ (mod_ = None -> member = None -> laws = None -> wait = None -> s' = s).
Proof.
  intros C G Gt.
  destruct (update_registered s interaction g t mod_ member laws wait C G Gt)
    as (doc' & ti & p' & E & T & Tr & P & En).
  destruct (tracks_find _ _ _ _ _ Tr) as [_ Fs].
  assert (Bot.field (updated t mod_ member laws wait) "server_id"
          = Bot.Done (Bot.guild_id g)) as Hsid.
  { unfold Bot.field, Bot.dict_get. rewrite Fs. reflexivity. }
  destruct C as [N R]. destruct Tr as (N' & _ & L & O).
  unfold Bot.update. rewrite E.
  destruct (Bot.is_some mod_ || Bot.is_some member || Bot.is_some laws
            || Bot.is_some wait) eqn:Any.
  - rewrite P.
    exists {| Bot.profiles_document := doc'; Bot.profiles := p' |}. simpl.
    split; [reflexivity|]. split; [split; assumption|].
    destruct (lookup_by_entry doc' p' (Bot.guild_id g) P) as (Hg & Ht & _).
    rewrite L in Hg, Ht. simpl in Hg, Ht.
    split; [exact Hg|]. split; [exact Hsid|]. split; [congruence|]. split.
    + intros i Hi.
      destruct (lookup_by_entry doc' p' i P) as (-> & _ & ->).
      destruct (lookup_by_entry _ _ i R) as (-> & _ & ->).
      rewrite (O i Hi). auto.
    + intros -> -> -> ->. discriminate.
  - assert (mod_ = None /\ member = None /\ laws = None /\ wait = None)
      as (-> & -> & -> & ->).
    { destruct mod_, member, laws, wait; try discriminate. auto. }
    rewrite (En eq_refl eq_refl eq_refl eq_refl) in *.
    exists s. destruct s as [doc p]. simpl in *.
    split; [reflexivity|]. split; [split; assumption|].
    split; [exact Gt|]. split; [exact Hsid|]. auto.
Qed.

Lemma assign_blocked (p : Bot.ServerProfiles) (interaction : Bot.Interaction)
    (name : string) (v : option Z) (doc : Bot.document) (e : Bot.raised) :
  Bot.obind (Bot.interaction_guild_id interaction) (Bot.title p) = Bot.Fail e ->
  Bot.assign p interaction name v doc
  = (doc, match v with Some _ => Bot.Fail e | None => Bot.Done tt end).
Proof.
  intros B. destruct v as [id|]; [|reflexivity].
  unfold Bot.assign, Bot.obind in *.
  destruct (Bot.interaction_guild_id interaction) as [gid|e'].
  - rewrite B. reflexivity.
  - injection B as ->. reflexivity.
Qed.

(** X13.  [profile update] is all or nothing.  From globals that agree it
    raises only when an option is given and the guild cannot be resolved
    ([AttributeError] outside a guild, [KeyError] in an unregistered one);
    then it has written nothing, sent nothing, and left both globals as they
    were. *)
Theorem update_fails_without_effect
    (s s' : Bot.Store) (interaction : Bot.Interaction)
    (mod_ member laws wait : option Z) (tr : list Bot.action) (e : Bot.raised) :
  consistent s ->
  Bot.update s interaction mod_ member laws wait = (s', (tr, Bot.Fail e)) ->
  s' = s /\ tr = []
  /\ Bot.is_some mod_ || Bot.is_some member || Bot.is_some laws || Bot.is_some wait = true
  /\ ((Bot.guild interaction = None /\ e = Bot.AttributeError)
      \/ (exists g, Bot.guild interaction = Some g
                    /\ Bot.contains (Bot.profiles s) (Bot.guild_id g) = false
                    /\ e = Bot.KeyError)).
Proof.
  intros C U.
  destruct (Bot.obind (Bot.interaction_guild_id interaction) (Bot.title (Bot.profiles s)))
    as [ti|e'] eqn:B.
  - exfalso. unfold Bot.interaction_guild_id in B.
    destruct (Bot.guild interaction) as [g|] eqn:G; [|discriminate].
    simpl in B. destruct C as [N R].
    destruct (lookup_by_entry _ _ (Bot.guild_id g) R) as (Hg & Ht & _).
    rewrite Ht in B.
    destruct (last_entry (Bot.profiles_document s) (Bot.guild_id g)) as [[ti' t]|] eqn:L;
      [|discriminate].
    destruct (update_registered s interaction g t mod_ member laws wait
                                (conj N R) G Hg)
      as (doc' & ti0 & p' & E & _ & _ & P & _).
    unfold Bot.update in U. rewrite E in U.
    destruct (Bot.is_some mod_ || Bot.is_some member || Bot.is_some laws
              || Bot.is_some wait); [rewrite P in U|]; discriminate.
  - assert (s' = s /\ tr = []
            /\ Bot.is_some mod_ || Bot.is_some member || Bot.is_some laws
               || Bot.is_some wait = true
            /\ e = e') as (-> & -> & Any & ->).
    { unfold Bot.update, Bot.assign_all in U.
      rewrite !(assign_blocked _ _ _ _ _ _ B) in U.
      destruct s as [doc p]. simpl in *.
      destruct mod_, member, laws, wait; simpl in U;
        rewrite ?(assign_blocked _ _ _ _ _ _ B) in U; simpl in U;
        try discriminate; injection U as <- <- <-; auto. }
    split; [reflexivity|]. split; [reflexivity|]. split; [exact Any|].
    unfold Bot.interaction_guild_id in B.
    destruct (Bot.guild interaction) as [g|] eqn:G; simpl in B.
    + right. exists g. split; [reflexivity|].
      destruct C as [N R].
      destruct (lookup_by_entry _ _ (Bot.guild_id g) R) as (_ & Ht & Hc).
      rewrite Ht in B. rewrite Hc.
      destruct (last_entry (Bot.profiles_document s) (Bot.guild_id g));
        [discriminate|]. injection B as <-. auto.
    + left. injection B as <-. auto.
Qed.

End ProfileStore.

(** ** The membership commands *)

Section Membership.

Lemma utils_get_id (roles : list Bot.Role) (m : Z) (r : Bot.Role) :
  Bot.utils_get roles m = Some r -> In r roles /\ Bot.role_id r = m.
Proof.
  unfold Bot.utils_get. intros F. apply find_some in F.
  destruct F as [Hin E]. apply Z.eqb_eq in E. auto.
Qed.

Lemma utils_get_existsb (roles : list Bot.Role) (m : Z) :
  match Bot.utils_get roles m with Some _ => true | None => false end
  = existsb (fun r => (Bot.role_id r =? m)%Z) roles.
Proof.
  unfold Bot.utils_get. induction roles as [|r roles IH]; simpl; [reflexivity|].
  destruct (Bot.role_id r =? m)%Z; [reflexivity | exact IH].
Qed.

Lemma guild_member_role_id (profiles : Bot.ServerProfiles)
    (interaction : Bot.Interaction) (r : Bot.Role) :
  Bot.guild_member_role profiles interaction = Bot.Done r ->
  Bot.member_role profiles interaction = Bot.Done (Bot.role_id r)
  /\ exists g, Bot.guild interaction = Some g /\ In r (Bot.guild_roles g).
Proof.
  unfold Bot.guild_member_role.
  destruct (Bot.guild interaction) as [g|]; [|discriminate].
  destruct (Bot.member_role profiles interaction) as [m|]; simpl; [|discriminate].
  destruct (Bot.utils_get (Bot.guild_roles g) m) as [r'|] eqn:U; [|discriminate].
  intros [= ->]. destruct (utils_get_id _ _ _ U) as [Hin <-]. eauto.
Qed.

(** Every trace of a membership command, case by case. *)
Ltac membership_cases profiles interaction u :=
  unfold Bot.accept, Bot.restore, Bot.boot, Bot.deny, Bot.lift, Bot.emit;
  destruct (Bot.held_member_role profiles interaction u) as [[held|]|];
  cbn [Bot.cbind app fst];
  try (destruct (Bot.guild_member_role profiles interaction) as [r'|] eqn:R;
       cbn [Bot.cbind app fst]);
  try (destruct (Bot.system_channel interaction) as [c|]; cbn [Bot.cbind app fst]);
  try (destruct (Bot.guild_name_of interaction) as [n|]; cbn [Bot.cbind app fst]);
  try (destruct (Bot.wait_channel_mention profiles interaction) as [w|];
       cbn [Bot.cbind app fst]).

(** X14.  The membership commands act on the right users, whatever else
    goes wrong on the way.  [accept] and [restore] hand out a role only to a
    user who does not hold the member role, and the role is the guild's role
    with the profile's "member_role" id; [boot] takes that role only from a
    user who holds it; [deny] kicks only a user who does not hold it.  A
    user holding the role gets one reply and no request from [accept],
    [restore] and [deny]; a user not holding it gets one reply and no
    request from [boot]. *)
Theorem membership_commands_check_the_role
    (profiles : Bot.ServerProfiles) (interaction : Bot.Interaction) (u : Bot.User) :
  (forall who r,
      In (Bot.AddRoles who r) (fst (Bot.accept profiles interaction u))
      \/ In (Bot.AddRoles who r) (fst (Bot.restore profiles interaction u)) ->
      Bot.held_member_role profiles interaction u = Bot.Done None
      /\ who = Bot.user_mention u
      /\ Bot.member_role profiles interaction = Bot.Done (Bot.role_id r))
  /\ (forall who r,
         In (Bot.RemoveRoles who r) (fst (Bot.boot profiles interaction u)) ->
         (exists held, Bot.held_member_role profiles interaction u = Bot.Done (Some held))
         /\ who = Bot.user_mention u
         /\ Bot.member_role profiles interaction = Bot.Done (Bot.role_id r))
  /\ (forall who,
         In (Bot.Kick who) (fst (Bot.deny profiles interaction u)) ->
         Bot.held_member_role profiles interaction u = Bot.Done None
         /\ who = Bot.user_mention u)
  /\ (forall held,
         Bot.held_member_role profiles interaction u = Bot.Done (Some held) ->
         Bot.accept profiles interaction u
         = ([Bot.Send "User is already accepted." None true], Bot.Done tt)
         /\ Bot.restore profiles interaction u
            = ([Bot.Send "User is already restored." None true], Bot.Done tt)
         /\ Bot.deny profiles interaction u
            = ([Bot.Send "User is a member." None true], Bot.Done tt))
  /\ (Bot.held_member_role profiles interaction u = Bot.Done None ->
      Bot.boot profiles interaction u
      = ([Bot.Send "User is already booted." None true], Bot.Done tt)).
Proof.
  split; [|split; [|split; [|split]]].
  - intros who r [H|H]; revert H; membership_cases profiles interaction u;
      simpl; intros H; repeat (destruct H as [H|H]; try discriminate H);
        try contradiction;
        injection H as <- <-;
        destruct (guild_member_role_id _ _ _ R) as [M _]; auto.
  - intros who r; membership_cases profiles interaction u;
      simpl; intros H; repeat (destruct H as [H|H]; try discriminate H);
        try contradiction;
        injection H as <- <-;
        destruct (guild_member_role_id _ _ _ R) as [M _]; eauto.
  - intros who; membership_cases profiles interaction u;
      simpl; intros H; repeat (destruct H as [H|H]; try discriminate H);
        try contradiction; injection H as <-; auto.
  - intros held H. unfold Bot.accept, Bot.restore, Bot.deny. rewrite H.
    repeat split; reflexivity.
  - intros H. unfold Bot.boot. rewrite H. reflexivity.
Qed.

End Membership.

(** ** Complete profiles *)

Section Completeness.

Lemma complete_set (t : Bot.table) (name : string) (v : Z) :
  complete t = true -> complete (Bot.dict_set String.eqb t name v) = true.
Proof.
  unfold complete. rewrite !forallb_forall. intros H f Hf.
  specialize (H f Hf). unfold Bot.dict_contains in *.
  rewrite (dict_find_set String.eqb String.eqb_eq).
  destruct (String.eqb f name); [reflexivity | exact H].
Qed.

Lemma complete_document_find (doc : Bot.document) (ti : string) (t : Bot.table) :
  complete_document doc ->
  Bot.dict_find String.eqb doc ti = Some t -> complete t = true.
Proof.
  unfold complete_document. intros C F.
  apply (dict_find_In String.eqb String.eqb_eq) in F.
  rewrite forallb_forall in C. apply C.
  apply (in_map snd _ _ F).
Qed.

Lemma complete_document_set (doc : Bot.document) (ti : string) (t : Bot.table) :
  complete t = true -> complete_document doc ->
  complete_document (Bot.dict_set String.eqb doc ti t).
Proof.
  unfold complete_document. intros Ht.
  induction doc as [|[ti0 t0] doc IH]; simpl; intros C.
  - rewrite Ht. reflexivity.
  - apply andb_prop in C. destruct C as [C0 C].
    destruct (String.eqb ti ti0); simpl.
    + rewrite Ht, C. reflexivity.
    + rewrite C0, (IH C). reflexivity.
Qed.

Lemma assign_complete (p : Bot.ServerProfiles) (interaction : Bot.Interaction)
    (name : string) (v : option Z) (doc : Bot.document) :
  complete_document doc ->
  complete_document (fst (Bot.assign p interaction name v doc)).
Proof.
  intros C. unfold Bot.assign. destruct v as [id|]; [|exact C].
  destruct (Bot.interaction_guild_id interaction) as [gid|]; simpl; [|exact C].
  destruct (Bot.title p gid) as [ti|]; simpl; [|exact C].
  unfold Bot.set_field.
  destruct (Bot.dict_find String.eqb doc ti) as [t|] eqn:F; simpl; [|exact C].
  apply complete_document_set; [|exact C].
  apply complete_set, (complete_document_find doc ti t C F).
Qed.

Lemma assign_all_complete (p : Bot.ServerProfiles) (interaction : Bot.Interaction)
    (mod_ member laws wait : option Z) (doc : Bot.document) :
  complete_document doc ->
  complete_document (fst (Bot.assign_all p interaction mod_ member laws wait doc)).
Proof.
  intros C. unfold Bot.assign_all.
  pose proof (assign_complete p interaction "moderator_role" mod_ doc C) as C1.
  destruct (Bot.assign p interaction "moderator_role" mod_ doc) as [d1 [[]|e1]];
    simpl in C1; [|exact C1].
  pose proof (assign_complete p interaction "member_role" member d1 C1) as C2.
  destruct (Bot.assign p interaction "member_role" member d1) as [d2 [[]|e2]];
    simpl in C2; [|exact C2].
  pose proof (assign_complete p interaction "laws_channel" laws d2 C2) as C3.
  destruct (Bot.assign p interaction "laws_channel" laws d2) as [d3 [[]|e3]];
    simpl in C3; [|exact C3].
  apply assign_complete, C3.
Qed.

(** X15.  Profiles stay complete.  If every table of the document has the
    five fields "server_id", "moderator_role", "member_role", "laws_channel"
    and "wait_channel", then so does every table of the document left by
    [profile init] and by [profile update], whatever their arguments and
    whether they return or raise. *)
Theorem init_and_update_keep_profiles_complete
    (s : Bot.Store) (interaction : Bot.Interaction) :
  complete_document (Bot.profiles_document s) ->
  (forall new_title mod_ member laws wait,
      complete_document
        (Bot.profiles_document (fst (Bot.init s interaction new_title mod_ member laws wait))))
  /\ (forall mod_ member laws wait,
         complete_document
           (Bot.profiles_document (fst (Bot.update s interaction mod_ member laws wait)))).
Proof.
  intros C. split.
  - intros new_title mod_ member laws wait. unfold Bot.init.
    destruct (Bot.interaction_guild_id interaction) as [gid|]; [|exact C].
    unfold Bot.document_add.
    destruct (Bot.dict_contains String.eqb (Bot.profiles_document s) new_title);
      [exact C|].
    assert (complete_document
              (Bot.profiles_document s
               ++ [(new_title,
                    [("server_id"%string, gid); ("moderator_role"%string, mod_);
                     ("member_role"%string, member); ("laws_channel"%string, laws);
                     ("wait_channel"%string, wait)])])%list) as C'.
    { unfold complete_document in *. rewrite map_app, forallb_app, C. reflexivity. }
    destruct (Bot.refresh _); exact C'.
  - intros mod_ member laws wait. unfold Bot.update.
    pose proof (assign_all_complete (Bot.profiles s) interaction mod_ member laws wait
                                    _ C) as C'.
    destruct (Bot.assign_all (Bot.profiles s) interaction mod_ member laws wait
                             (Bot.profiles_document s)) as [doc [[]|e]];
      simpl in C'; [|exact C'].
    destruct (Bot.is_some mod_ || Bot.is_some member || Bot.is_some laws
              || Bot.is_some wait); [|exact C'].
    destruct (Bot.refresh doc); exact C'.
Qed.

(** X16.  With complete profiles that agree with the document, the
    moderator check cannot fail for want of a key: once
    [has_server_profile] has passed, [has_mod_role] returns for every member
    of the guild, and its answer is whether one of the member's roles has
    the id the profile gives as "moderator_role". *)
Theorem has_mod_role_after_has_server_profile
    (s : Bot.Store) (interaction : Bot.Interaction) (rs : list Bot.Role) :
  consistent s ->
  complete_document (Bot.profiles_document s) ->
  Bot.has_server_profile (Bot.profiles s) interaction = Bot.Done true ->
  Bot.user_roles (Bot.user interaction) = Some rs ->
  exists g t m,
    Bot.guild interaction = Some g
    /\ Bot.getitem (Bot.profiles s) (Bot.guild_id g) = Bot.Done t
    /\ Bot.field t "moderator_role" = Bot.Done m
    /\ Bot.has_mod_role (Bot.profiles s) interaction
       = Bot.Done (existsb (fun r => (Bot.role_id r =? m)%Z) rs).
Proof.
  intros [N R] C H U.
  unfold Bot.has_server_profile, Bot.interaction_guild_id in H.
  destruct (Bot.guild interaction) as [g|] eqn:G; [|discriminate].
  simpl in H.
  destruct (Bot.contains (Bot.profiles s) (Bot.guild_id g)) eqn:K; [|discriminate].
  pose proof (lookup_cases _ _ (Bot.guild_id g) R) as L. rewrite K in L.
  destruct L as (ti & t & L & _ & Hg).
  destruct (last_entry_sound _ _ _ _ L) as [Hin _].
  assert (complete t = true) as Ct.
  { unfold complete_document in C. rewrite forallb_forall in C.
    apply C, (in_map snd _ _ Hin). }
  assert (exists m, Bot.field t "moderator_role" = Bot.Done m) as (m & Hm).
  { unfold complete in Ct. rewrite forallb_forall in Ct.
    specialize (Ct "moderator_role"%string).
    unfold Bot.dict_contains, Bot.field, Bot.dict_get in *.
    destruct (Bot.dict_find String.eqb t "moderator_role") as [m|]; [eauto|].
    discriminate Ct. simpl. tauto. }
  exists g, t, m. repeat split; try assumption.
  unfold Bot.has_mod_role, Bot.roles_of, Bot.interaction_guild_id.
  rewrite U, G. cbn [Bot.obind]. rewrite Hg. cbn [Bot.obind]. rewrite Hm.
  cbn [Bot.obind]. rewrite utils_get_existsb. reflexivity.
Qed.

End Completeness.

(** ** Sample runs of the bot *)

Section BotRuns.

Local Abbreviation example_text :=
  "Cats are great. Dogs are great too. Cats and dogs are both great pets.".

Lemma tldr_keeps_short_messages_witness :
  Bot.tldr Since_3_12 Demo.sent_tokenize Demo.word_tokenize Demo.stopwords example_text
  = ([Bot.Send (">>> " ++ join " " (Demo.sent_tokenize example_text)) None false],
     Bot.Done tt).
Proof.
  apply (proj1 (tldr_keeps_short_messages Since_3_12
                  Demo.sent_tokenize Demo.word_tokenize Demo.stopwords example_text
                  ltac:(vm_compute; discriminate)
                  ltac:(vm_compute; repeat constructor; discriminate))).
  vm_compute. lia.
Defined.

Lemma profiles_lookup_witness :
  (Bot.contains BotDemo.profiles_twice 10 = true
   <-> exists ti t, In (ti, t) BotDemo.doc_twice
                    /\ Bot.field t "server_id" = Bot.Done 10%Z)
  /\ exists ti t, last_entry BotDemo.doc_twice 10 = Some (ti, t)
                  /\ Bot.title BotDemo.profiles_twice 10 = Bot.Done ti
                  /\ Bot.getitem BotDemo.profiles_twice 10 = Bot.Done t.
Proof.
  exact (profiles_lookup BotDemo.doc_twice BotDemo.profiles_twice 10 eq_refl).
Defined.

Lemma title_leads_to_profile_witness :
  exists ti t,
    Bot.title BotDemo.profiles_twice 10 = Bot.Done ti
    /\ Bot.getitem BotDemo.profiles_twice 10 = Bot.Done t
    /\ Bot.dict_get String.eqb BotDemo.doc_twice ti = Bot.Done t
    /\ Bot.field t "server_id" = Bot.Done 10%Z.
Proof.
  apply (title_leads_to_profile BotDemo.doc_twice BotDemo.profiles_twice 10 eq_refl).
  - repeat constructor; simpl; intuition discriminate.
  - reflexivity.
Defined.

Lemma cleanup_deletes_leftovers_witness :
  Bot.cleanup BotDemo.at_home
  = ([Bot.DeleteRole BotDemo.old_admin;
      Bot.Send "Deleted 1 leftover roles." None true], Bot.Done tt).
Proof.
  exact (proj1 (cleanup_deletes_leftovers BotDemo.at_home BotDemo.home 5 eq_refl eq_refl)).
Defined.

Lemma owner_role_is_a_leftover_witness :
  exists top,
    Bot.bot_max_position BotDemo.home = Bot.Done top
    /\ Bot.leftover top BotDemo.old_admin = true.
Proof.
  destruct (owner_role_is_a_leftover
              BotDemo.profiles [4%Z] BotDemo.home BotDemo.moderator BotDemo.guid
              _ eq_refl eq_refl eq_refl) as (top & T & _ & _ & L).
  exists top. split; [exact T|].
  apply L; [reflexivity | reflexivity|].
  vm_compute in T. injection T as <-. reflexivity.
Defined.

Lemma demo_store_consistent : consistent BotDemo.store.
Proof.
  split; [|reflexivity].
  repeat constructor; simpl; intuition discriminate.
Qed.

Lemma init_registers_guild_witness :
  exists s',
    Bot.init BotDemo.store BotDemo.at_elsewhere "d4" 11 12 13 14
    = (s', ([Bot.Dump (Bot.profiles_document s');
             Bot.Send "Created server profile." None true], Bot.Done tt))
    /\ consistent s'
    /\ Bot.is_new_server (Bot.profiles BotDemo.store) BotDemo.at_elsewhere = Bot.Done true
    /\ Bot.is_new_server (Bot.profiles s') BotDemo.at_elsewhere
       = Bot.Fail Bot.ApplicationServerAlreadyRegistered
    /\ Bot.getitem (Bot.profiles s') 30
       = Bot.Done [("server_id"%string, 30%Z); ("moderator_role"%string, 11%Z);
                   ("member_role"%string, 12%Z); ("laws_channel"%string, 13%Z);
                   ("wait_channel"%string, 14%Z)]
    /\ Bot.getitem (Bot.profiles s') 10 = Bot.Done BotDemo.home_profile.
Proof.
  destruct (init_registers_guild BotDemo.store BotDemo.at_elsewhere BotDemo.elsewhere
                                 "d4" 11 12 13 14 demo_store_consistent eq_refl eq_refl)
    as (s' & E & _ & C & _ & New & _ & G & O).
  exists s'. split; [exact E|]. split; [exact C|]. split; [reflexivity|].
  split; [exact New|]. split; [exact G|].
  destruct (O 10%Z) as [-> _]; [discriminate | reflexivity].
Defined.

Lemma update_sets_given_fields_witness :
  exists s',
    Bot.update BotDemo.store BotDemo.at_home (Some 21%Z) None None (Some 24%Z)
    = (s', ([Bot.Dump (Bot.profiles_document s');
             Bot.Send "Updated server profile." None true], Bot.Done tt))
    /\ consistent s'
    /\ Bot.getitem (Bot.profiles s') 10
       = Bot.Done [("server_id"%string, 10%Z); ("moderator_role"%string, 21%Z);
                   ("member_role"%string, 2%Z); ("laws_channel"%string, 3%Z);
                   ("wait_channel"%string, 24%Z)]
    /\ Bot.getitem (Bot.profiles s') 20 = Bot.Done BotDemo.away_profile.
Proof.
  destruct (update_sets_given_fields BotDemo.store BotDemo.at_home BotDemo.home
                                     BotDemo.home_profile (Some 21%Z) None None (Some 24%Z)
                                     demo_store_consistent eq_refl eq_refl)
    as (s' & E & C & G & _ & _ & O & _).
  exists s'. split; [exact E|]. split; [exact C|]. split; [exact G|].
  destruct (O 20%Z) as [-> _]; [discriminate | reflexivity].
Defined.

Lemma update_fails_without_effect_witness :
  exists s' tr e,
    Bot.update BotDemo.store BotDemo.at_elsewhere None (Some 22%Z) None None
    = (s', (tr, Bot.Fail e))
    /\ s' = BotDemo.store /\ tr = []
    /\ exists g, Bot.guild BotDemo.at_elsewhere = Some g
                 /\ Bot.contains (Bot.profiles BotDemo.store) (Bot.guild_id g) = false
                 /\ e = Bot.KeyError.
Proof.
  exists BotDemo.store, [], Bot.KeyError. split; [reflexivity|].
  destruct (update_fails_without_effect
              BotDemo.store BotDemo.store BotDemo.at_elsewhere
              None (Some 22%Z) None None [] Bot.KeyError
              demo_store_consistent eq_refl) as (Hs & Ht & _ & [[G _]|Hg]).
  - discriminate G.
  - auto.
Defined.

Lemma demo_document_complete : complete_document (Bot.profiles_document BotDemo.store).
Proof. reflexivity. Qed.

Lemma init_and_update_keep_profiles_complete_witness :
  complete_document
    (Bot.profiles_document
       (fst (Bot.init BotDemo.store BotDemo.at_elsewhere "d4" 11 12 13 14)))
  /\ complete_document
       (Bot.profiles_document
          (fst (Bot.update BotDemo.store BotDemo.at_home (Some 21%Z) None None None))).
Proof.
  destruct (init_and_update_keep_profiles_complete
              BotDemo.store BotDemo.at_elsewhere demo_document_complete) as [I _].
  destruct (init_and_update_keep_profiles_complete
              BotDemo.store BotDemo.at_home demo_document_complete) as [_ U].
  split; [apply I | apply U].
Defined.

Lemma has_mod_role_after_has_server_profile_witness :
  Bot.has_server_profile (Bot.profiles BotDemo.store) BotDemo.at_home = Bot.Done true
  /\ Bot.has_mod_role (Bot.profiles BotDemo.store) BotDemo.at_home = Bot.Done true.
Proof.
  split; [reflexivity|].
  destruct (has_mod_role_after_has_server_profile
              BotDemo.store BotDemo.at_home
              [BotDemo.everyone; BotDemo.moderators; BotDemo.members]
              demo_store_consistent demo_document_complete eq_refl eq_refl)
    as (g & t & m & G & Gt & Hm & H).
  injection G as <-. vm_compute in Gt. injection Gt as <-.
  vm_compute in Hm. injection Hm as <-. exact H.
Defined.

End BotRuns.
